(** * cabot: status evaluation and alert escalation (cabotapp/models.py)

    A shallow embedding of [app/cabotapp/models.py].  Database tables are
    finite maps from primary key to row, Python objects are records,
    exceptions are an explicit outcome, and the calls that leave the
    process (clock, Jenkins, Graphite, calendar, alert transport) are
    fields of the world the code runs in. *)

From Stdlib Require Import ZArith Lia Bool List Ascii String.
From Stdlib Require Import Floats.SpecFloat.
From stdpp Require Import base option list strings gmap fin_maps sorting.

Local Open Scope string_scope.
Local Open Scope Z_scope.

(* ===================================================================== *)
(** * Part I.  Definitions                                                *)
(* ===================================================================== *)

(** ** Python values used by the module *)

(** Exceptions that can leave a function of the module.  [Unmodelled]
    marks a behaviour of Python that the functions below do not render. *)
Inductive Exn : Type :=
| TypeError (msg : string)
| ValueError (msg : string)
| PyException (msg : string)
| AttributeError (msg : string)
| MultipleObjectsReturned
| Unmodelled (what : string).

(** The result of running a piece of Python: it returns or it raises. *)
Inductive outcome (A : Type) : Type :=
| Return (a : A)
| Raise (e : Exn).
Arguments Return {A} a.
Arguments Raise {A} e.

(** State-and-exception monad: writes made before a [raise] stay made. *)
Definition M (St A : Type) : Type := St -> outcome A * St.

Definition ret {St A} (a : A) : M St A := fun s => (Return a, s).
Definition raise {St A} (e : Exn) : M St A := fun s => (Raise e, s).
Definition bind {St A B} (m : M St A) (k : A -> M St B) : M St B :=
  fun s => match m s with
           | (Return a, s') => k a s'
           | (Raise e, s') => (Raise e, s')
           end.
Definition get {St} : M St St := fun s => (Return s, s).
Definition put {St} (s : St) : M St unit := fun _ => (Return tt, s).
Definition modify {St} (f : St -> St) : M St unit := fun s => (Return tt, f s).
Definition lift_outcome {St A} (o : outcome A) : M St A := fun s => (o, s).

Notation "x <- m ;; k" := (bind m (fun x => k))
  (at level 100, m at next level, right associativity).
Notation "m ;;; k" := (bind m (fun _ => k))
  (at level 100, right associativity).

(** *** Decimal rendering of integers: [str(n)] and ["%s" % n] *)

Definition digit_of (n : Z) : ascii := ascii_of_nat (48 + Z.to_nat n).

Fixpoint digits_fuel (fuel : nat) (n : Z) (acc : string) : string :=
  match fuel with
  | O => acc
  | S fuel' =>
      let acc' := String (digit_of (n mod 10)) acc in
      if n / 10 =? 0 then acc' else digits_fuel fuel' (n / 10) acc'
  end.

(** Number of decimal digits of [n >= 0] is at most its number of bits. *)
Definition str_nonneg (n : Z) : string :=
  digits_fuel (S (Z.to_nat (Z.log2 n))) n EmptyString.

Definition str_int (n : Z) : string :=
  if n <? 0 then "-" +:+ str_nonneg (- n) else str_nonneg n.

(** *** String methods: [lower], [strip], [startswith], [join]

    Strings are sequences of bytes; case and whitespace are those of
    ASCII. *)

Definition ascii_lower (c : ascii) : ascii :=
  let n := nat_of_ascii c in
  if ((65 <=? n) && (n <=? 90))%nat then ascii_of_nat (n + 32) else c.

Fixpoint lower (s : string) : string :=
  match s with
  | EmptyString => EmptyString
  | String c s' => String (ascii_lower c) (lower s')
  end.

(** Whitespace as [str.strip()] sees it: space, \t, \n, \v, \f, \r. *)
Definition is_space (c : ascii) : bool :=
  let n := nat_of_ascii c in
  ((n =? 32) || ((9 <=? n) && (n <=? 13)))%nat.

Fixpoint lstrip (s : string) : string :=
  match s with
  | String c s' => if is_space c then lstrip s' else s
  | EmptyString => EmptyString
  end.

Fixpoint rstrip (s : string) : string :=
  match s with
  | EmptyString => EmptyString
  | String c s' =>
      match rstrip s' with
      | EmptyString => if is_space c then EmptyString else String c EmptyString
      | r => String c r
      end
  end.

Definition strip (s : string) : string := rstrip (lstrip s).

Definition startswith (s : string) (c : ascii) : bool :=
  match s with
  | String c' _ => Ascii.eqb c c'
  | EmptyString => false
  end.

(** [s[1:]] *)
Definition drop_first (s : string) : string :=
  match s with
  | String _ s' => s'
  | EmptyString => EmptyString
  end.

Fixpoint join (sep : string) (l : list string) : string :=
  match l with
  | [] => EmptyString
  | [x] => x
  | x :: l' => x +:+ sep +:+ join sep l'
  end.

(** [l[:k]] for an integer [k]: a negative bound counts from the end. *)
Definition slice_to {A} (l : list A) (k : Z) : list A :=
  if 0 <=? k then take (Z.to_nat k) l
  else take (Z.to_nat (Z.of_nat (length l) + k)) l.

(** *** Floats

    A Python float is an IEEE 754 binary64, here a [spec_float] of the
    Standard Library with [prec = 53] and [emax = 1024]. *)

Definition prec : Z := 53.
Definition emax : Z := 1024.
Definition float : Type := spec_float.

Definition float_lt (x y : float) : bool := SFltb x y.
Definition float_le (x y : float) : bool := SFleb x y.
Definition float_eq (x y : float) : bool := SFeqb x y.

(** [float(n)] for an integer. *)
Definition float_of_int (n : Z) : float := binary_normalize prec emax n 0 false.

(** The float nearest to [(-1)^neg * mant * 10^e10], ties to even. *)
Definition float_of_decimal (neg : bool) (mant e10 : Z) : float :=
  if mant <=? 0 then S754_zero neg
  else if 0 <=? e10 then
    binary_round prec emax neg (Z.to_pos (mant * 10 ^ e10)) 0
  else
    let '(q, e, l) := SFdiv_core_binary prec emax mant 0 (10 ^ (- e10)) 0 in
    binary_round_aux prec emax neg q e l.

Definition is_digit (c : ascii) : bool :=
  let n := nat_of_ascii c in ((48 <=? n) && (n <=? 57))%nat.
Definition digit_val (c : ascii) : Z := Z.of_nat (nat_of_ascii c) - 48.

(** Reads a run of decimal digits: the number read after [acc], how many
    digits there were, and the rest of the string. *)
Fixpoint take_digits (s : string) (acc : Z) (cnt : Z) : Z * Z * string :=
  match s with
  | String c s' =>
      if is_digit c then take_digits s' (10 * acc + digit_val c) (cnt + 1)
      else (acc, cnt, s)
  | EmptyString => (acc, cnt, s)
  end.

Definition take_sign (s : string) : bool * string :=
  match s with
  | String "-" s' => (true, s')
  | String "+" s' => (false, s')
  | _ => (false, s)
  end.

Definition bad_float (s : string) : Exn :=
  ValueError ("could not convert string to float: " +:+ s).

(** [float(s)] for a string: surrounding whitespace, a sign, then [inf],
    [infinity], [nan], or decimal digits with an optional point and an
    optional exponent. *)
Definition float_of_string (s : string) : outcome float :=
  let '(neg, body) := take_sign (strip s) in
  let low := lower body in
  if (String.eqb low "inf" || String.eqb low "infinity")%bool
  then Return (S754_infinity neg)
  else if String.eqb low "nan" then Return S754_nan
  else
    let '(ip, n1, r1) := take_digits body 0 0 in
    let '(mant, n2, r2) :=
      match r1 with
      | String "." r => take_digits r ip 0
      | _ => (ip, 0, r1)
      end in
    if n1 + n2 =? 0 then Raise (bad_float s)
    else
      match r2 with
      | EmptyString => Return (float_of_decimal neg mant (- n2))
      | String c r3 =>
          if (Ascii.eqb c "e" || Ascii.eqb c "E")%bool then
            let '(eneg, r4) := take_sign r3 in
            match take_digits r4 0 0 with
            | (ex, n3, EmptyString) =>
                if n3 =? 0 then Raise (bad_float s)
                else Return (float_of_decimal neg mant
                               ((if eneg then - ex else ex) - n2))
            | _ => Raise (bad_float s)
            end
          else Raise (bad_float s)
      end.

(** [float(x)] where [x] is a nullable text field. *)
Definition float_of_field (v : option string) : outcome float :=
  match v with
  | Some s => float_of_string s
  | None => Raise (TypeError "float() argument must be a string or a number")
  end.

(** [round(m * 2^e * 10^p)] to the nearest integer, ties to even. *)
Definition scaled_round (m e p : Z) : Z :=
  let n := m * 10 ^ p in
  if 0 <=? e then n * 2 ^ e
  else
    let d := 2 ^ (- e) in
    let q := n / d in
    let r := n mod d in
    match 2 * r ?= d with
    | Lt => q
    | Gt => q + 1
    | Eq => if Z.even q then q else q + 1
    end.

Fixpoint zero_pad (width : nat) (s : string) : string :=
  match width with
  | O => s
  | S w => if (String.length s <? width)%nat then zero_pad w ("0" +:+ s) else s
  end.

(** ["%.<p>f" % x].  Python 2 renders magnitudes of [1e50] and more with
    [%g]; that branch is left out. *)
Definition format_f (p : Z) (x : float) : outcome string :=
  match x with
  | S754_nan => Return "nan"
  | S754_infinity s => Return (if s then "-inf" else "inf")
  | S754_zero s =>
      Return ((if s then "-" else EmptyString) +:+ "0" +:+
              (if p =? 0 then EmptyString
               else "." +:+ zero_pad (Z.to_nat p) EmptyString))
  | S754_finite s m e =>
      if 10 ^ 50 * 2 ^ Z.max 0 (- e) <=? Z.pos m * 2 ^ Z.max 0 e then
        Raise (Unmodelled "%f of a float of magnitude 1e50 or more")
      else
        let n := scaled_round (Z.pos m) e p in
        let ip := n / 10 ^ p in
        let fp := n mod 10 ^ p in
        Return ((if s then "-" else EmptyString) +:+ str_int ip +:+
                (if p =? 0 then EmptyString
                 else "." +:+ zero_pad (Z.to_nat p) (str_int fp)))
  end.

(** *** The string formatting operator [fmt % args] *)

Inductive PyVal : Type :=
| VStr (s : string)
| VInt (n : Z)
| VFloat (x : float)
| VNone.

(** The right operand: one value that is not a tuple, or a tuple. *)
Inductive PyArgs : Type :=
| Single (v : PyVal)
| Tuple (vs : list PyVal).

Definition str_of_field (v : option string) : PyVal :=
  match v with Some s => VStr s | None => VNone end.
Definition int_of_field (v : option Z) : PyVal :=
  match v with Some n => VInt n | None => VNone end.

(** [str(v)] *)
Definition py_str (v : PyVal) : outcome string :=
  match v with
  | VStr s => Return s
  | VInt n => Return (str_int n)
  | VNone => Return "None"
  | VFloat _ => Raise (Unmodelled "str() of a float")
  end.

(** Where the scanner is inside a conversion [%[flags][width][.prec]c]. *)
Inductive fmt_state : Type :=
| Text
| Flags
| Precision (p : Z).

Definition is_flag (c : ascii) : bool :=
  (Ascii.eqb c "-" || Ascii.eqb c "+" || Ascii.eqb c " " ||
   Ascii.eqb c "#" || Ascii.eqb c "0")%bool.

Definition not_enough : Exn :=
  TypeError "not enough arguments for format string".
Definition not_all_converted : Exn :=
  TypeError "not all arguments converted during string formatting".

(** One conversion [c] with precision [p] applied to the next argument. *)
Definition convert (c : ascii) (p : option Z) (args : list PyVal)
  : outcome (string * list PyVal) :=
  if Ascii.eqb c "%" then Return ("%", args)
  else
    match args with
    | [] => Raise not_enough
    | v :: rest =>
        if Ascii.eqb c "s" then
          match p, py_str v with
          | None, Return s => Return (s, rest)
          | None, Raise e => Raise e
          | Some _, _ => Raise (Unmodelled "%s with a precision")
          end
        else if Ascii.eqb c "d" then
          match v with
          | VInt n => Return (str_int n, rest)
          | VFloat _ => Raise (Unmodelled "%d of a float")
          | _ => Raise (TypeError "%d format: a number is required")
          end
        else if Ascii.eqb c "f" then
          let x := match v with
                   | VFloat x => Return x
                   | VInt n => Return (float_of_int n)
                   | _ => Raise (TypeError "float argument required")
                   end in
          match x with
          | Return x =>
              match format_f (default 6 p) x with
              | Return s => Return (s, rest)
              | Raise e => Raise e
              end
          | Raise e => Raise e
          end
        else Raise (Unmodelled "conversion other than %s, %d, %f, %%")
    end.

(** The scan of the format.  Flags other than a bare [0] and explicit
    widths pad the output and are left out. *)
Fixpoint format_go (fmt : string) (st : fmt_state)
    (args : list PyVal) (acc : string) : outcome (string * list PyVal) :=
  match fmt with
  | EmptyString =>
      match st with
      | Text => Return (acc, args)
      | _ => Raise (ValueError "incomplete format")
      end
  | String c fmt' =>
      let finish p :=
        match convert c p args with
        | Return (s, rest) => format_go fmt' Text rest (acc +:+ s)
        | Raise e => Raise e
        end in
      match st with
      | Text =>
          if Ascii.eqb c "%" then format_go fmt' Flags args acc
          else format_go fmt' Text args (acc +:+ String c EmptyString)
      | Flags =>
          if Ascii.eqb c "0" then format_go fmt' Flags args acc
          else if is_flag c then Raise (Unmodelled "format flag")
          else if is_digit c then Raise (Unmodelled "format width")
          else if Ascii.eqb c "." then format_go fmt' (Precision 0) args acc
          else finish None
      | Precision p =>
          if is_digit c
          then format_go fmt' (Precision (10 * p + digit_val c)) args acc
          else finish (Some p)
      end
  end.

(** [fmt % args].  A single non-tuple operand that no conversion consumed
    is an error, as are tuple items left over. *)
Definition py_format (fmt : string) (args : PyArgs) : outcome string :=
  let vs := match args with Single v => [v] | Tuple vs => vs end in
  match format_go fmt Text vs EmptyString with
  | Return (s, []) => Return s
  | Return (_, _ :: _) => Raise not_all_converted
  | Raise e => Raise e
  end.

(** ** The data model

    One module per model class, so that a field reads as in the source:
    [Service.overall_status s], [Shift.deleted s].  A datetime is an
    integer count of microseconds; a nullable column is an [option]. *)

Definition timedelta_minutes (m : Z) : Z := m * 60 * 1000000.

Definition dq : string := String (ascii_of_nat 34) EmptyString.

(** The statistics [parse_metric] hands back for a metric expression. *)
Module Series.
Record t : Type := mk {
  error : bool;
  num_series_with_data : Z;
  min : float;
  max : float;
  average_value : float;
  all_values : list float;
  raw : string;
}.
End Series.

(** The dictionary [get_job_status] hands back for a job. *)
Module JobStatus.
Record t : Type := mk {
  active : bool;
  succeeded : bool;
  blocked_build_time : option Z;
}.
End JobStatus.

(** What a call of [get_job_status] does: it returns a status, raises
    [requests.HTTPError] (the job is unknown), or raises something else. *)
Inductive JenkinsResponse : Type :=
| JobStatusOf (status : JobStatus.t)
| RaisesHTTPError
| RaisesOther.

Inductive RawData : Type :=
| RawSeries (raw : string)
| RawJobStatus (status : JobStatus.t).

Module StatusCheckResult.
Record t : Type := mk {
  id : option Z;
  check : Z;
  time : Z;
  time_complete : option Z;
  raw_data : option RawData;
  succeeded : bool;
  error : option string;
}.
Definition with_id (i : Z) (r : t) : t :=
  mk (Some i) (check r) (time r) (time_complete r) (raw_data r)
     (succeeded r) (error r).
Definition with_time_complete (v : option Z) (r : t) : t :=
  mk (id r) (check r) (time r) v (raw_data r) (succeeded r) (error r).
Definition with_raw_data (v : option RawData) (r : t) : t :=
  mk (id r) (check r) (time r) (time_complete r) v (succeeded r) (error r).
Definition with_succeeded (v : bool) (r : t) : t :=
  mk (id r) (check r) (time r) (time_complete r) (raw_data r) v (error r).
Definition with_error (v : option string) (r : t) : t :=
  mk (id r) (check r) (time r) (time_complete r) (raw_data r)
     (succeeded r) v.
(** [StatusCheckResult(check=c, time=start)]: the other columns take
    their defaults. *)
Definition new (c : Z) (start : Z) : t :=
  mk None c start None None false None.
End StatusCheckResult.

Module ServiceStatusSnapshot.
Record t : Type := mk {
  id : option Z;
  service : Z;
  time : Z;
  num_checks_active : Z;
  num_checks_passing : Z;
  num_checks_failing : Z;
  overall_status : string;
  did_send_alert : bool;
}.
Definition with_id (i : Z) (s : t) : t :=
  mk (Some i) (service s) (time s) (num_checks_active s)
     (num_checks_passing s) (num_checks_failing s) (overall_status s)
     (did_send_alert s).
Definition with_did_send_alert (b : bool) (s : t) : t :=
  mk (id s) (service s) (time s) (num_checks_active s)
     (num_checks_passing s) (num_checks_failing s) (overall_status s) b.
End ServiceStatusSnapshot.

Module Service.
Definition PASSING_STATUS : string := "PASSING".
Definition WARNING_STATUS : string := "WARNING".
Definition ERROR_STATUS : string := "ERROR".
Definition CRITICAL_STATUS : string := "CRITICAL".

Definition CALCULATED_PASSING_STATUS : string := "passing".
Definition CALCULATED_INTERMITTENT_STATUS : string := "intermittent".
Definition CALCULATED_FAILING_STATUS : string := "failing".

Definition IMPORTANCES : list string :=
  [WARNING_STATUS; ERROR_STATUS; CRITICAL_STATUS].

(** [snapshot] is the attribute [update_status] puts on the object; it
    is not a column. *)
Record t : Type := mk {
  id : Z;
  name : string;
  url : string;
  status_checks : gset Z;
  last_alert_sent : option Z;
  email_alert : bool;
  hipchat_alert : bool;
  sms_alert : bool;
  telephone_alert : bool;
  alerts_enabled : bool;
  overall_status : string;
  old_overall_status : string;
  hackpad_id : option string;
  snapshot : option ServiceStatusSnapshot.t;
}.
Definition with_last_alert_sent (v : option Z) (s : t) : t :=
  mk (id s) (name s) (url s) (status_checks s) v (email_alert s)
     (hipchat_alert s) (sms_alert s) (telephone_alert s) (alerts_enabled s)
     (overall_status s) (old_overall_status s) (hackpad_id s) (snapshot s).
Definition with_overall_status (v : string) (s : t) : t :=
  mk (id s) (name s) (url s) (status_checks s) (last_alert_sent s)
     (email_alert s) (hipchat_alert s) (sms_alert s) (telephone_alert s)
     (alerts_enabled s) v (old_overall_status s) (hackpad_id s) (snapshot s).
Definition with_old_overall_status (v : string) (s : t) : t :=
  mk (id s) (name s) (url s) (status_checks s) (last_alert_sent s)
     (email_alert s) (hipchat_alert s) (sms_alert s) (telephone_alert s)
     (alerts_enabled s) (overall_status s) v (hackpad_id s) (snapshot s).
Definition with_snapshot (v : option ServiceStatusSnapshot.t) (s : t) : t :=
  mk (id s) (name s) (url s) (status_checks s) (last_alert_sent s)
     (email_alert s) (hipchat_alert s) (sms_alert s) (telephone_alert s)
     (alerts_enabled s) (overall_status s) (old_overall_status s)
     (hackpad_id s) v.
End Service.

(** The columns shared by all checks, those of the metric check and that
    of the build check.  The columns of the HTTP check and [created_by]
    are read by none of the functions below.  [frequency] and [debounce]
    stand for the numbers they hold. *)
Module StatusCheck.
Record t : Type := mk {
  id : Z;
  name : string;
  active : bool;
  importance : string;
  frequency : Z;
  debounce : Z;
  calculated_status : string;
  last_run : option Z;
  cached_health : option string;
  metric : option string;
  check_type : option string;
  value : option string;
  expected_num_hosts : option Z;
  max_queued_build_time : option Z;
}.
Definition with_calculated (status : string) (health : string) (c : t) : t :=
  mk (id c) (name c) (active c) (importance c) (frequency c) (debounce c)
     status (last_run c) (Some health) (metric c) (check_type c) (value c)
     (expected_num_hosts c) (max_queued_build_time c).
Definition with_last_run (v : option Z) (c : t) : t :=
  mk (id c) (name c) (active c) (importance c) (frequency c) (debounce c)
     (calculated_status c) v (cached_health c) (metric c) (check_type c)
     (value c) (expected_num_hosts c) (max_queued_build_time c).
End StatusCheck.

Module User.
Record t : Type := mk {
  id : Z;
  username : string;
  is_active : bool;
}.
End User.

Module UserProfile.
Record t : Type := mk {
  id : option Z;
  user : Z;
  mobile_number : string;
  hipchat_alias : string;
  fallback_alert_user : bool;
}.
Definition with_id (i : Z) (p : t) : t :=
  mk (Some i) (user p) (mobile_number p) (hipchat_alias p)
     (fallback_alert_user p).
Definition with_mobile_number (v : string) (p : t) : t :=
  mk (id p) (user p) v (hipchat_alias p) (fallback_alert_user p).
Definition with_fallback_alert_user (v : bool) (p : t) : t :=
  mk (id p) (user p) (mobile_number p) (hipchat_alias p) v.
End UserProfile.

Module Shift.
Record t : Type := mk {
  id : option Z;
  start : Z;
  end_ : Z;
  user : Z;
  uid : string;
  deleted : bool;
}.
Definition with_id (i : Z) (s : t) : t :=
  mk (Some i) (start s) (end_ s) (user s) (uid s) (deleted s).
Definition with_deleted (v : bool) (s : t) : t :=
  mk (id s) (start s) (end_ s) (user s) (uid s) v.
End Shift.

(** One entry of the calendar feed. *)
Module Event.
Record t : Type := mk {
  uid : string;
  summary : string;
  start : Z;
  end_ : Z;
}.
End Event.

(** Who [send_alert] is told to reach: the users of the current shifts,
    or the profile of the fallback user. *)
Inductive Recipient : Type :=
| ShiftUser (user : Z)
| FallbackProfile (profile : UserProfile.t).

(** ** The world the code runs in

    [clock] gives the successive readings of [timezone.now()], [ticks]
    counts the readings taken.  [get_job_status], [parse_metric] and
    [get_events] are the collaborators of the module; [sent] logs the
    calls of [send_alert]. *)
Record World : Type := mkWorld {
  clock : nat -> Z;
  ticks : nat;
  get_job_status : string -> JenkinsResponse;
  parse_metric : option string -> Z -> Series.t;
  get_events : list Event.t;
  users : gmap Z User.t;
  services : gmap Z Service.t;
  status_checks : gmap Z StatusCheck.t;
  results : gmap Z StatusCheckResult.t;
  snapshots : gmap Z ServiceStatusSnapshot.t;
  shifts : gmap Z Shift.t;
  profiles : gmap Z UserProfile.t;
  sent : list (Service.t * list Recipient);
}.

Definition with_ticks (v : nat) (w : World) : World :=
  mkWorld (clock w) v (get_job_status w) (parse_metric w) (get_events w)
    (users w) (services w) (status_checks w) (results w) (snapshots w)
    (shifts w) (profiles w) (sent w).
Definition with_services (v : gmap Z Service.t) (w : World) : World :=
  mkWorld (clock w) (ticks w) (get_job_status w) (parse_metric w)
    (get_events w) (users w) v (status_checks w) (results w) (snapshots w)
    (shifts w) (profiles w) (sent w).
Definition with_status_checks (v : gmap Z StatusCheck.t) (w : World) : World :=
  mkWorld (clock w) (ticks w) (get_job_status w) (parse_metric w)
    (get_events w) (users w) (services w) v (results w) (snapshots w)
    (shifts w) (profiles w) (sent w).
Definition with_results (v : gmap Z StatusCheckResult.t) (w : World) : World :=
  mkWorld (clock w) (ticks w) (get_job_status w) (parse_metric w)
    (get_events w) (users w) (services w) (status_checks w) v (snapshots w)
    (shifts w) (profiles w) (sent w).
Definition with_snapshots (v : gmap Z ServiceStatusSnapshot.t) (w : World)
  : World :=
  mkWorld (clock w) (ticks w) (get_job_status w) (parse_metric w)
    (get_events w) (users w) (services w) (status_checks w) (results w) v
    (shifts w) (profiles w) (sent w).
Definition with_shifts (v : gmap Z Shift.t) (w : World) : World :=
  mkWorld (clock w) (ticks w) (get_job_status w) (parse_metric w)
    (get_events w) (users w) (services w) (status_checks w) (results w)
    (snapshots w) v (profiles w) (sent w).
Definition with_profiles (v : gmap Z UserProfile.t) (w : World) : World :=
  mkWorld (clock w) (ticks w) (get_job_status w) (parse_metric w)
    (get_events w) (users w) (services w) (status_checks w) (results w)
    (snapshots w) (shifts w) v (sent w).
Definition with_sent (v : list (Service.t * list Recipient)) (w : World)
  : World :=
  mkWorld (clock w) (ticks w) (get_job_status w) (parse_metric w)
    (get_events w) (users w) (services w) (status_checks w) (results w)
    (snapshots w) (shifts w) (profiles w) v.

(** [timezone.now()]: the next reading of the clock. *)
Definition timezone_now : M World Z :=
  fun w => (Return (clock w (ticks w)), with_ticks (S (ticks w)) w).

(** The primary key an insert gives a new row: one past the largest. *)
Definition next_id {A} (table : gmap Z A) : Z :=
  1 + map_fold (fun k _ acc => Z.max k acc) 0 table.

(** The rows of a table that satisfy [p], in the order of the table. *)
Definition rows {A} (p : A -> bool) (table : gmap Z A) : list A :=
  filter (fun r => p r = true) (snd <$> map_to_list table).

(** A method runs on its object and the world. *)
Definition get_self {T} : M (T * World) T := fun s => (Return (fst s), s).
Definition set_self {T} (f : T -> T) : M (T * World) unit :=
  fun s => (Return tt, (f (fst s), snd s)).
Definition in_world {T A} (m : M World A) : M (T * World) A :=
  fun s => let '(o, w) := m (snd s) in (o, (fst s, w)).
Definition get_world {T} : M (T * World) World :=
  fun s => (Return (snd s), s).

(** ** Database access *)

(** [Model.objects.get(...)]: no row, one row, or several. *)
Inductive get_result (A : Type) : Type :=
| DoesNotExist
| Found (a : A)
| TooMany.
Arguments DoesNotExist {A}.
Arguments Found {A} a.
Arguments TooMany {A}.

(** The object built from the row stored under key [k] carries [k] as
    its [id]. *)
Definition objects_get {A} (with_id : Z -> A -> A) (p : A -> bool)
    (table : gmap Z A) : get_result A :=
  match filter (fun kv : Z * A => p (snd kv) = true) (map_to_list table) with
  | [] => DoesNotExist
  | [(k, a)] => Found (with_id k a)
  | _ => TooMany
  end.

(** [obj.save()]: an update under the object's key, or an insert under a
    new key, which the object then carries. *)
Definition save_row {A} (id : A -> option Z) (with_id : Z -> A -> A)
    (a : A) (table : gmap Z A) : A * gmap Z A :=
  match id a with
  | Some i => (a, <[i := a]> table)
  | None => let i := next_id table in (with_id i a, <[i := with_id i a]> table)
  end.

Definition StatusCheckResult_save (r : StatusCheckResult.t)
  : M World StatusCheckResult.t :=
  fun w =>
    let '(r', t) := save_row StatusCheckResult.id StatusCheckResult.with_id
                      r (results w) in
    (Return r', with_results t w).

Definition ServiceStatusSnapshot_save (s : ServiceStatusSnapshot.t)
  : M World ServiceStatusSnapshot.t :=
  fun w =>
    let '(s', t) := save_row ServiceStatusSnapshot.id
                      ServiceStatusSnapshot.with_id s (snapshots w) in
    (Return s', with_snapshots t w).

Definition Shift_save (s : Shift.t) : M World Shift.t :=
  fun w =>
    let '(s', t) := save_row Shift.id Shift.with_id s (shifts w) in
    (Return s', with_shifts t w).

Definition Service_save (s : Service.t) : M World unit :=
  modify (fun w => with_services (<[Service.id s := s]> (services w)) w).

Fixpoint for_each {St A} (l : list A) (body : A -> M St unit) : M St unit :=
  match l with
  | [] => ret tt
  | a :: l' => body a ;;; for_each l' body
  end.

(** Truth of a nullable number and of a nullable string. *)
Definition truthy_int (v : option Z) : bool :=
  match v with Some n => negb (n =? 0) | None => false end.
Definition truthy_str (v : option string) : bool :=
  match v with Some s => negb (String.eqb s EmptyString) | None => false end.

(** ** The debounce evaluator *)

Definition result_to_value (result : StatusCheckResult.t) : string :=
  if StatusCheckResult.succeeded result then "1" else "-1".

Definition serialize_recent_results
    (recent_results : list StatusCheckResult.t) : string :=
  match recent_results with
  | [] => EmptyString
  | _ => join "," (rev (map result_to_value recent_results))
  end.

(** The loop over the window: the first success ends it. *)
Fixpoint any_succeeded (window : list StatusCheckResult.t) : bool :=
  match window with
  | [] => false
  | r :: window' =>
      if StatusCheckResult.succeeded r then true else any_succeeded window'
  end.

Definition calculate_debounced_passing
    (recent_results : list StatusCheckResult.t) (debounce : Z) : bool :=
  match recent_results with
  | [] => true
  | _ => any_succeeded (slice_to recent_results (debounce + 1))
  end.

(** ** StatusCheck *)

(** Order of [order_by('-time_complete')]: later completions first; a
    row without completion time counts as the earliest. *)
Definition completes_before (a b : option Z) : bool :=
  match a, b with
  | None, _ => true
  | Some _, None => false
  | Some x, Some y => x <=? y
  end.

Definition no_earlier (x y : StatusCheckResult.t) : Prop :=
  completes_before (StatusCheckResult.time_complete y)
                   (StatusCheckResult.time_complete x) = true.

#[global] Instance no_earlier_dec x y : Decision (no_earlier x y).
Proof. unfold no_earlier. apply _. Defined.

(** [self.statuscheckresult_set.all().order_by('-time_complete')] *)
Definition completed_history (self : StatusCheck.t) (w : World)
  : list StatusCheckResult.t :=
  merge_sort no_earlier
    (rows (fun r => StatusCheckResult.check r =? StatusCheck.id self)
          (results w)).

(** [recent_results]: the first ten of them, [...[:10]]. *)
Definition recent_results (self : StatusCheck.t) (w : World)
  : list StatusCheckResult.t :=
  take 10 (completed_history self w).

Definition calculated_status_of (passing : bool) : string :=
  if passing then Service.CALCULATED_PASSING_STATUS
  else Service.CALCULATED_FAILING_STATUS.

Definition StatusCheck_save : M (StatusCheck.t * World) unit :=
  self <- get_self ;;
  w <- get_world ;;
  let recent := recent_results self w in
  set_self (StatusCheck.with_calculated
              (calculated_status_of
                 (calculate_debounced_passing recent (StatusCheck.debounce self)))
              (serialize_recent_results recent)) ;;;
  self <- get_self ;;
  in_world (modify (fun w =>
    with_status_checks (<[StatusCheck.id self := self]> (status_checks w)) w)).

(** ** The metric check *)

(** [self.expected_num_hosts > 0] and [n < self.expected_num_hosts]: in
    Python 2 [None] is smaller than every number. *)
Definition gt0 (v : option Z) : bool :=
  match v with Some n => 0 <? n | None => false end.
Definition lt_field (n : Z) (v : option Z) : bool :=
  match v with Some e => n <? e | None => false end.

Definition format_error_message (self : StatusCheck.t)
    (failure_value : option float) (actual_hosts : Z) : outcome string :=
  match failure_value with
  | None => Return "Failed to get metric from Graphite"
  | Some fv =>
      let hosts_string :=
        if gt0 (StatusCheck.expected_num_hosts self) then
          py_format " | %s/%s hosts"
            (Tuple [VInt actual_hosts;
                    int_of_field (StatusCheck.expected_num_hosts self)])
        else Return EmptyString in
      match hosts_string, float_of_field (StatusCheck.value self) with
      | Raise e, _ => Raise e
      | Return _, Raise e => Raise e
      | Return hosts, Return threshold =>
          py_format "%0.1f %s %0.1f%s"
            (Tuple [VFloat fv; str_of_field (StatusCheck.check_type self);
                    VFloat threshold; VStr hosts])
      end
  end.

(** The comparison selected by [check_type]: the verdict and, on failure,
    the offending value. *)
Definition compare_series (self : StatusCheck.t) (series : Series.t)
  : outcome (bool * option float) :=
  let against (stat : float) (test : float -> float -> bool) :=
    match float_of_field (StatusCheck.value self) with
    | Return threshold =>
        let failed := test stat threshold in
        Return (failed, if failed then Some stat else None)
    | Raise e => Raise e
    end in
  match StatusCheck.check_type self with
  | Some "<" => against (Series.min series) float_lt
  | Some "<=" => against (Series.min series) float_le
  | Some ">" => against (Series.max series) (fun a b => float_lt b a)
  | Some ">=" => against (Series.max series) (fun a b => float_le b a)
  | Some "==" =>
      match float_of_field (StatusCheck.value self) with
      | Return threshold =>
          let failed := existsb (float_eq threshold) (Series.all_values series) in
          Return (failed, if failed then Some threshold else None)
      | Raise e => Raise e
      end
  | other =>
      match py_format "Check type %s not supported" (Single (str_of_field other)) with
      | Return msg => Raise (PyException msg)
      | Raise e => Raise e
      end
  end.

(** [not failed], where [failed] is [None] until something sets it. *)
Definition not_failed (failed : option bool) : bool :=
  match failed with Some true => false | _ => true end.

Definition GraphiteStatusCheck_run : M (StatusCheck.t * World) unit :=
  start <- in_world timezone_now ;;
  self <- get_self ;;
  w <- get_world ;;
  let series := parse_metric w (StatusCheck.metric self)
                  (StatusCheck.frequency self) in
  let failed0 := if Series.error series then Some true else None in
  finish <- in_world timezone_now ;;
  let result := StatusCheckResult.with_time_complete (Some finish)
                  (StatusCheckResult.new (StatusCheck.id self) start) in
  compared <-
    (if 0 <? Series.num_series_with_data series then
       verdict <- lift_outcome (compare_series self series) ;;
       ret (Some (fst verdict), snd verdict)
     else ret (failed0, None)) ;;
  let failed1 := fst compared in
  let failure_value := snd compared in
  let failed :=
    if lt_field (Series.num_series_with_data series)
                (StatusCheck.expected_num_hosts self)
    then Some true else failed1 in
  let result := StatusCheckResult.with_raw_data
                  (Some (RawSeries (Series.raw series))) result in
  let result := StatusCheckResult.with_succeeded (not_failed failed) result in
  result <-
    (if negb (StatusCheckResult.succeeded result) then
       msg <- lift_outcome
                (format_error_message self failure_value
                   (Series.num_series_with_data series)) ;;
       ret (StatusCheckResult.with_error (Some msg) result)
     else ret result) ;;
  in_world (StatusCheckResult_save result) ;;;
  set_self (StatusCheck.with_last_run (Some finish)) ;;;
  StatusCheck_save.

(** ** The build check *)

Definition JenkinsStatusCheck_run : M (StatusCheck.t * World) unit :=
  start <- in_world timezone_now ;;
  self <- get_self ;;
  w <- get_world ;;
  let result := StatusCheckResult.new (StatusCheck.id self) start in
  let name := StatusCheck.name self in
  let record (result : StatusCheckResult.t) (finish : Z)
    : M (StatusCheck.t * World) unit :=
    in_world (StatusCheckResult_save
                (StatusCheckResult.with_time_complete (Some finish) result)) ;;;
    set_self (StatusCheck.with_last_run (Some finish)) ;;;
    StatusCheck_save in
  match get_job_status w name with
  | RaisesHTTPError =>
      msg <- lift_outcome
               (py_format "Job %s not found on Jenkins" (Single (VStr name))) ;;
      let result := StatusCheckResult.with_error (Some msg) result in
      let result := StatusCheckResult.with_succeeded false result in
      finish <- in_world timezone_now ;;
      record result finish
  | RaisesOther =>
      finish <- in_world timezone_now ;;
      let result := StatusCheckResult.with_error
                      (Some "Error fetching from Jenkins") result in
      let result := StatusCheckResult.with_succeeded true result in
      record result finish
  | JobStatusOf status =>
      result <-
        (if negb (JobStatus.active status) then
           msg <- lift_outcome
                    (py_format "Job disabled on Jenkins" (Single (VStr name))) ;;
           ret (StatusCheckResult.with_succeeded false
                  (StatusCheckResult.with_error (Some msg) result))
         else
           result <-
             (if truthy_int (StatusCheck.max_queued_build_time self)
                 && truthy_int (JobStatus.blocked_build_time status)
              then
                let blocked := default 0 (JobStatus.blocked_build_time status) in
                let allowed := default 0 (StatusCheck.max_queued_build_time self) in
                if allowed * 60 <? blocked then
                  msg <- lift_outcome
                           (py_format
                              ("Job " +:+ dq +:+ "%s" +:+ dq +:+
                               " has blocked build waiting for %ss (> %sm)")
                              (Tuple [VStr name; VInt blocked; VInt allowed])) ;;
                  ret (StatusCheckResult.with_error (Some msg)
                         (StatusCheckResult.with_succeeded false result))
                else ret (StatusCheckResult.with_succeeded
                            (JobStatus.succeeded status) result)
              else ret (StatusCheckResult.with_succeeded
                          (JobStatus.succeeded status) result)) ;;
           if negb (JobStatus.succeeded status) then
             error <-
               (if truthy_str (StatusCheckResult.error result) then
                  tail <- lift_outcome
                            (py_format ("; Job " +:+ dq +:+ "%s" +:+ dq +:+
                                        " failing on Jenkins")
                               (Single (VStr name))) ;;
                  ret (default EmptyString (StatusCheckResult.error result)
                       +:+ tail)
                else
                  lift_outcome
                    (py_format ("Job " +:+ dq +:+ "%s" +:+ dq +:+
                                " failing on Jenkins")
                       (Single (VStr name)))) ;;
             ret (StatusCheckResult.with_raw_data (Some (RawJobStatus status))
                    (StatusCheckResult.with_error (Some error) result))
           else ret result) ;;
      finish <- in_world timezone_now ;;
      record result finish
  end.

(** ** The duty roster *)

Definition on_duty (at_time : Z) (shift : Shift.t) : bool :=
  negb (Shift.deleted shift) && (Shift.start shift <? at_time)
  && (at_time <? Shift.end_ shift).

Definition get_duty_officers (at_time : option Z) : M World (list Recipient) :=
  at_time <- (match at_time with
              | Some t => ret t
              | None => timezone_now
              end) ;;
  w <- get ;;
  match rows (on_duty at_time) (shifts w) with
  | shift :: current_shifts =>
      ret (map (fun shift => ShiftUser (Shift.user shift))
               (shift :: current_shifts))
  | [] =>
      match objects_get UserProfile.with_id UserProfile.fallback_alert_user
              (profiles w) with
      | Found u => ret [FallbackProfile u]
      | DoesNotExist => ret []
      | TooMany => raise MultipleObjectsReturned
      end
  end.

(** [send_alert(service, duty_officers=...)]: the transport is outside
    the module; the call is logged. *)
Definition send_alert (service : Service.t) (duty_officers : list Recipient)
  : M World unit :=
  modify (fun w => with_sent (sent w ++ [(service, duty_officers)]) w).

(** ** Service *)

(** The rows of the many-to-many relation of [self], filtered. *)
Definition checks_of (self : Service.t) (p : StatusCheck.t -> bool)
    (w : World) : list StatusCheck.t :=
  snd <$> filter (fun kc : Z * StatusCheck.t =>
                    fst kc ∈ Service.status_checks self /\ p (snd kc) = true)
            (map_to_list (status_checks w)).

Definition active_status_checks (self : Service.t) (w : World)
  : list StatusCheck.t :=
  checks_of self StatusCheck.active w.

Definition all_failing_checks (self : Service.t) (w : World)
  : list StatusCheck.t :=
  checks_of self
    (fun c => StatusCheck.active c
              && negb (String.eqb (StatusCheck.calculated_status c)
                         Service.CALCULATED_PASSING_STATUS)) w.

Definition most_severe (check_list : list StatusCheck.t) : string :=
  let failures := map StatusCheck.importance check_list in
  if bool_decide (Service.CRITICAL_STATUS ∈ failures)
  then Service.CRITICAL_STATUS
  else if bool_decide (Service.ERROR_STATUS ∈ failures)
  then Service.ERROR_STATUS
  else if bool_decide (Service.WARNING_STATUS ∈ failures)
  then Service.WARNING_STATUS
  else Service.PASSING_STATUS.

Definition is_critical (self : Service.t) : bool :=
  negb (String.eqb (Service.old_overall_status self) Service.CRITICAL_STATUS)
  && String.eqb (Service.overall_status self) Service.CRITICAL_STATUS.

(** [self.last_alert_sent and (timezone.now() - timedelta(minutes=m)) <
    self.last_alert_sent]: the clock is read only when there is a
    previous alert. *)
Definition sent_within (minutes : Z) : M (Service.t * World) bool :=
  self <- get_self ;;
  match Service.last_alert_sent self with
  | None => ret false
  | Some last =>
      now <- in_world timezone_now ;;
      ret (now - timedelta_minutes minutes <? last)
  end.

(** The end of [alert]: persist, mark the snapshot of the cycle, send. *)
Definition alert_send : M (Service.t * World) unit :=
  self <- get_self ;;
  in_world (Service_save self) ;;;
  match Service.snapshot self with
  | None => raise (AttributeError "snapshot")
  | Some snapshot =>
      let snapshot :=
        ServiceStatusSnapshot.with_did_send_alert true snapshot in
      snapshot <- in_world (ServiceStatusSnapshot_save snapshot) ;;
      set_self (Service.with_snapshot (Some snapshot)) ;;;
      duty_officers <- in_world (get_duty_officers None) ;;
      self <- get_self ;;
      in_world (send_alert self duty_officers)
  end.

(** The throttle of a failing status: is the alert held back? *)
Definition throttled : M (Service.t * World) bool :=
  self <- get_self ;;
  if String.eqb (Service.overall_status self) Service.WARNING_STATUS
  then sent_within 120
  else if bool_decide (Service.overall_status self ∈
            [Service.CRITICAL_STATUS; Service.ERROR_STATUS])
  then sent_within 10
  else ret false.

(** The places where [alert] returns early are the first branch and the
    answer [true] of [throttled]. *)
Definition alert : M (Service.t * World) unit :=
  self <- get_self ;;
  if negb (Service.alerts_enabled self) then ret tt
  else if negb (String.eqb (Service.overall_status self)
                  Service.PASSING_STATUS)
  then
    held <- throttled ;;
    if held then ret tt
    else
      now <- in_world timezone_now ;;
      set_self (Service.with_last_alert_sent (Some now)) ;;;
      alert_send
  else
    set_self (Service.with_last_alert_sent None) ;;;
    alert_send.

Definition update_status : M (Service.t * World) unit :=
  set_self (fun self =>
    Service.with_old_overall_status (Service.overall_status self) self) ;;;
  self <- get_self ;;
  w <- get_world ;;
  let status_checks_failed_count :=
    Z.of_nat (length (all_failing_checks self w)) in
  set_self (Service.with_overall_status
              (most_severe (all_failing_checks self w))) ;;;
  self <- get_self ;;
  let num_checks_active := Z.of_nat (length (active_status_checks self w)) in
  now <- in_world timezone_now ;;
  snapshot <- in_world (ServiceStatusSnapshot_save
    (ServiceStatusSnapshot.mk None (Service.id self) now
       num_checks_active
       (num_checks_active - status_checks_failed_count)
       status_checks_failed_count
       (Service.overall_status self)
       false)) ;;
  set_self (Service.with_snapshot (Some snapshot)) ;;;
  self <- get_self ;;
  in_world (Service_save self) ;;;
  if negb (String.eqb (Service.overall_status self) Service.PASSING_STATUS
           && String.eqb (Service.old_overall_status self)
                Service.PASSING_STATUS)
  then alert
  else ret tt.

(** ** UserProfile *)

Definition UserProfile_save : M (UserProfile.t * World) unit :=
  self <- get_self ;;
  (if startswith (UserProfile.mobile_number self) "+"
   then set_self (UserProfile.with_mobile_number
                    (drop_first (UserProfile.mobile_number self)))
   else ret tt) ;;;
  self <- get_self ;;
  (if UserProfile.fallback_alert_user self then
     in_world (modify (fun w =>
       with_profiles
         (map_imap (fun k p =>
            Some (if bool_decide (UserProfile.id self = Some k) then p
                  else UserProfile.with_fallback_alert_user false p))
            (profiles w)) w))
   else ret tt) ;;;
  fun s =>
    let '(self', t) := save_row UserProfile.id UserProfile.with_id
                         (fst s) (profiles (snd s)) in
    (Return tt, (self', with_profiles t (snd s))).

(** ** The shift synchronizer *)

Definition user_lookup (w : World) : gmap string User.t :=
  foldl (fun lookup u => <[lower (User.username u) := u]> lookup) ∅
        (rows User.is_active (users w)).

(** [Shift.objects.filter(start__gt=now).update(deleted=True)], row by
    row. *)
Definition delete_if_future (now : Z) (s : Shift.t) : Shift.t :=
  if now <? Shift.start s then Shift.with_deleted true s else s.

Definition mark_future_deleted (now : Z) (table : gmap Z Shift.t)
  : gmap Z Shift.t :=
  delete_if_future now <$> table.

(** The body of the loop over the events.  [Shift(uid=...)] has no
    start, end and user until the three assignments that follow it; the
    zeros stand for them. *)
Definition sync_event (lookup : gmap string User.t) (event : Event.t)
  : M World unit :=
  let e := strip (lower (Event.summary event)) in
  match lookup !! e with
  | Some user =>
      w <- get ;;
      s <- (match objects_get Shift.with_id
                    (fun s => String.eqb (Shift.uid s) (Event.uid event))
                    (shifts w) with
            | Found s => ret s
            | DoesNotExist =>
                ret (Shift.mk None 0 0 0 (Event.uid event) false)
            | TooMany => raise MultipleObjectsReturned
            end) ;;
      Shift_save (Shift.mk (Shift.id s) (Event.start event) (Event.end_ event)
                    (User.id user) (Shift.uid s) false) ;;;
      ret tt
  | None => ret tt
  end.

Definition update_shifts : M World unit :=
  w <- get ;;
  let events := get_events w in
  let lookup := user_lookup w in
  now <- timezone_now ;;
  modify (fun w => with_shifts (mark_future_deleted now (shifts w)) w) ;;;
  for_each events (sync_event lookup).

(** ** What a run leaves behind *)

(** The check object as [save] leaves it, and the world after it. *)
Definition saved (self : StatusCheck.t) (w : World) : StatusCheck.t :=
  fst (snd (StatusCheck_save (self, w))).

(** The result a run writes when the clock read [start] and [finish]. *)
Definition jenkins_result (self : StatusCheck.t) (w : World)
    (succeeded : bool) (error : string) : StatusCheckResult.t :=
  StatusCheckResult.mk None (StatusCheck.id self) (clock w (ticks w))
    (Some (clock w (S (ticks w)))) None succeeded (Some error).

(** The world after a run recorded [result]: two readings of the clock,
    the result inserted under a new key, the check saved with its status
    recomputed. *)
Definition after_record (self : StatusCheck.t) (w : World)
    (result : StatusCheckResult.t) : StatusCheck.t * World :=
  let w1 := with_ticks (S (S (ticks w))) w in
  let w2 := with_results
              (<[next_id (results w) :=
                   StatusCheckResult.with_id (next_id (results w)) result]>
                 (results w)) w1 in
  snd (StatusCheck_save
         (StatusCheck.with_last_run (Some (clock w (S (ticks w)))) self, w2)).

(** The result a metric run writes. *)
Definition graphite_result (self : StatusCheck.t) (w : World) (raw : string)
    (succeeded : bool) (error : option string) : StatusCheckResult.t :=
  StatusCheckResult.mk None (StatusCheck.id self) (clock w (ticks w))
    (Some (clock w (S (ticks w)))) (Some (RawSeries raw)) succeeded error.

(** ** The throttle and the severity order in the words of the
    specification *)

(** "120 minutes for WARNING, 10 minutes for ERROR/CRITICAL" *)
Definition cooldown_minutes (status : string) : option Z :=
  if String.eqb status Service.WARNING_STATUS then Some 120
  else if (String.eqb status Service.ERROR_STATUS
           || String.eqb status Service.CRITICAL_STATUS)%bool then Some 10
  else None.

(** "a prior alert was sent within a cooldown window keyed by severity,
    measured from [last_alert_sent]" *)
Definition within_cooldown (self : Service.t) (now : Z) : Prop :=
  exists last m,
    Service.last_alert_sent self = Some last /\
    cooldown_minutes (Service.overall_status self) = Some m /\
    now - last < timedelta_minutes m.

(** The throttle reads the clock when there is both a previous alert and
    a window to compare it with. *)
Definition throttle_reads (self : Service.t) : nat :=
  match Service.last_alert_sent self,
        cooldown_minutes (Service.overall_status self) with
  | Some _, Some _ => 1
  | _, _ => 0
  end.

(** "CRITICAL > ERROR > WARNING > PASSING" *)
Definition severity (status : string) : nat :=
  if String.eqb status Service.CRITICAL_STATUS then 3
  else if String.eqb status Service.ERROR_STATUS then 2
  else if String.eqb status Service.WARNING_STATUS then 1
  else 0.

(** "the maximum by the fixed order" *)
Definition max_severity (statuses : list string) : string :=
  foldr (fun a b => if (severity b <? severity a)%nat then a else b)
        Service.PASSING_STATUS statuses.

(** ** The fallback invariant *)

(** "at most one profile has [fallback_alert_user = true]" *)
Definition fallback_unique (table : gmap Z UserProfile.t) : Prop :=
  forall i j p q,
    table !! i = Some p -> table !! j = Some q ->
    UserProfile.fallback_alert_user p = true ->
    UserProfile.fallback_alert_user q = true ->
    i = j.

(** The number of profiles that have the flag. *)
Definition fallback_count (table : gmap Z UserProfile.t) : nat :=
  length (rows UserProfile.fallback_alert_user table).

(** The profiles of a list saved one after the other. *)
Definition save_profiles (ps : list UserProfile.t) (w : World) : World :=
  foldl (fun w p => snd (snd (UserProfile_save (p, w)))) w ps.

(** ** The synchronizer as a function of the shift table

    [update_shifts] reads the feed, the users and the clock and writes
    the shift table only; these are the same steps on the table alone. *)

(** The user an event is matched with, if any. *)
Definition matched_user (lookup : gmap string User.t) (event : Event.t)
  : option User.t :=
  lookup !! strip (lower (Event.summary event)).

(** The row an event leaves under key [k]. *)
Definition row_of (k : Z) (event : Event.t) (user : User.t) : Shift.t :=
  Shift.mk (Some k) (Event.start event) (Event.end_ event) (User.id user)
    (Event.uid event) false.

Definition has_uid (uid : string) (s : Shift.t) : bool :=
  String.eqb (Shift.uid s) uid.

Definition sync_row (lookup : gmap string User.t) (event : Event.t)
    (table : gmap Z Shift.t) : outcome unit * gmap Z Shift.t :=
  match matched_user lookup event with
  | Some user =>
      match objects_get Shift.with_id (has_uid (Event.uid event)) table with
      | Found s =>
          (Return tt,
           snd (save_row Shift.id Shift.with_id
                  (Shift.mk (Shift.id s) (Event.start event)
                     (Event.end_ event) (User.id user) (Shift.uid s) false)
                  table))
      | DoesNotExist =>
          (Return tt,
           snd (save_row Shift.id Shift.with_id
                  (Shift.mk None (Event.start event) (Event.end_ event)
                     (User.id user) (Event.uid event) false)
                  table))
      | TooMany => (Raise MultipleObjectsReturned, table)
      end
  | None => (Return tt, table)
  end.

Fixpoint sync_rows (lookup : gmap string User.t) (events : list Event.t)
    (table : gmap Z Shift.t) : outcome unit * gmap Z Shift.t :=
  match events with
  | [] => (Return tt, table)
  | event :: events' =>
      match sync_row lookup event table with
      | (Return _, table') => sync_rows lookup events' table'
      | (Raise e, table') => (Raise e, table')
      end
  end.

(** One run of the synchronizer at time [now]. *)
Definition sync_table (now : Z) (lookup : gmap string User.t)
    (events : list Event.t) (table : gmap Z Shift.t)
  : outcome unit * gmap Z Shift.t :=
  sync_rows lookup events (mark_future_deleted now table).

(** Some matched event of the list carries the uid. *)
Definition touches (lookup : gmap string User.t) (uid : string)
    (events : list Event.t) : Prop :=
  Exists (fun event => is_Some (matched_user lookup event)
                       /\ Event.uid event = uid) events.

(** All the rows of a uid, if any, are under key [k]. *)
Definition only_at (uid : string) (k : Z) (table : gmap Z Shift.t) : Prop :=
  forall k' s, table !! k' = Some s -> Shift.uid s = uid -> k' = k.

(** "no duplicate shifts": a uid has one row at most. *)
Definition uid_unique (table : gmap Z Shift.t) : Prop :=
  forall i j a b,
    table !! i = Some a -> table !! j = Some b ->
    Shift.uid a = Shift.uid b -> i = j.

(** How far a second run has come when [rest] is still to be processed:
    the table has the keys and uids of [final], and the rows of [final]
    but for those that [rest] will rewrite. *)
Definition resync_inv (lookup : gmap string User.t) (final : gmap Z Shift.t)
    (rest : list Event.t) (table : gmap Z Shift.t) : Prop :=
  forall k,
    match final !! k with
    | None => table !! k = None
    | Some r =>
        exists a, table !! k = Some a /\ Shift.uid a = Shift.uid r /\
                  (~ touches lookup (Shift.uid r) rest -> a = r)
    end.

(** The shifts in force: those not marked deleted. *)
Definition active_shifts (table : gmap Z Shift.t) : list Shift.t :=
  rows (fun s => negb (Shift.deleted s)) table.

(** ** Sample data *)

Definition no_series : Series.t :=
  Series.mk true 0 (S754_zero false) (S754_zero false) (S754_zero false) []
    EmptyString.

(** A world with empty tables whose clock counts its own readings. *)
Definition empty_world : World :=
  mkWorld (fun n => Z.of_nat n) 0 (fun _ => RaisesOther) (fun _ _ => no_series)
    [] ∅ ∅ ∅ ∅ ∅ ∅ ∅ [].

Definition with_get_job_status (f : string -> JenkinsResponse) (w : World)
  : World :=
  mkWorld (clock w) (ticks w) f (parse_metric w) (get_events w) (users w)
    (services w) (status_checks w) (results w) (snapshots w) (shifts w)
    (profiles w) (sent w).
Definition with_parse_metric (f : option string -> Z -> Series.t) (w : World)
  : World :=
  mkWorld (clock w) (ticks w) (get_job_status w) f (get_events w) (users w)
    (services w) (status_checks w) (results w) (snapshots w) (shifts w)
    (profiles w) (sent w).
Definition with_get_events (v : list Event.t) (w : World) : World :=
  mkWorld (clock w) (ticks w) (get_job_status w) (parse_metric w) v (users w)
    (services w) (status_checks w) (results w) (snapshots w) (shifts w)
    (profiles w) (sent w).
Definition with_users (v : gmap Z User.t) (w : World) : World :=
  mkWorld (clock w) (ticks w) (get_job_status w) (parse_metric w)
    (get_events w) v (services w) (status_checks w) (results w) (snapshots w)
    (shifts w) (profiles w) (sent w).
Definition with_clock (f : nat -> Z) (w : World) : World :=
  mkWorld f (ticks w) (get_job_status w) (parse_metric w) (get_events w)
    (users w) (services w) (status_checks w) (results w) (snapshots w)
    (shifts w) (profiles w) (sent w).

(** A build check of the job [deploy], debounce 0. *)
Definition deploy_check : StatusCheck.t :=
  StatusCheck.mk 1 "deploy" true Service.ERROR_STATUS 5 0
    Service.CALCULATED_PASSING_STATUS None None None None None None None.

(** The result of run number [i] of check 1. *)
Definition result_at (i : Z) (succeeded : bool) : StatusCheckResult.t :=
  StatusCheckResult.mk (Some i) 1 (10 * i) (Some (10 * i + 1)) None succeeded
    None.



(** One series with data, maximum [5.0], no query error. *)
Definition cpu_series : Series.t :=
  Series.mk false 1 (float_of_int 3) (float_of_int 5) (float_of_int 4)
    [float_of_int 3; float_of_int 5] "[]".

Definition cpu_world : World :=
  with_parse_metric (fun _ _ => cpu_series) empty_world.

(** A service in ERROR since the last cycle, alerted at time 5, with no
    checks attached. *)
Definition recovering_service : Service.t :=
  Service.mk 1 "web" EmptyString ∅ (Some 5) false true false false true
    Service.ERROR_STATUS Service.ERROR_STATUS None None.

(** A service in ERROR whose last alert went out at time 0, with the
    snapshot of the cycle attached. *)
Definition failing_service : Service.t :=
  Service.mk 1 "web" EmptyString ∅ (Some 0) false true false false true
    Service.ERROR_STATUS Service.ERROR_STATUS None
    (Some (ServiceStatusSnapshot.mk (Some 1) 1 0 1 0 1 Service.ERROR_STATUS
             false)).

(** A world whose clock always reads [t]. *)
Definition world_at (t : Z) : World := with_clock (fun _ => t) empty_world.


(** A check of the given key, importance, activity and status. *)
Definition check_of (k : Z) (importance : string) (active : bool)
    (calculated_status : string) : StatusCheck.t :=
  StatusCheck.mk k "check" active importance 5 0 calculated_status None None
    None None None None None.

(** Four checks: a failing WARNING, a failing CRITICAL, a failing but
    inactive ERROR, and a passing ERROR. *)
Definition mixed_world : World :=
  with_status_checks
    (list_to_map
       [(1, check_of 1 Service.WARNING_STATUS true
              Service.CALCULATED_FAILING_STATUS);
        (2, check_of 2 Service.CRITICAL_STATUS true
              Service.CALCULATED_FAILING_STATUS);
        (3, check_of 3 Service.ERROR_STATUS false
              Service.CALCULATED_FAILING_STATUS);
        (4, check_of 4 Service.ERROR_STATUS true
              Service.CALCULATED_PASSING_STATUS)])
    empty_world.

(** A passing service watching the four of them. *)
Definition mixed_service : Service.t :=
  Service.mk 1 "web" EmptyString {[1; 2; 3; 4]} None false true false false
    true Service.PASSING_STATUS Service.PASSING_STATUS None None.

(** A profile row; the number still has its [+]. *)
Definition profile_of (k : option Z) (user : Z) (fallback : bool)
  : UserProfile.t :=
  UserProfile.mk k user "+15550100" EmptyString fallback.

(** Two profiles, the first of which is the fallback. *)
Definition one_fallback_world : World :=
  with_profiles
    (list_to_map [(1, profile_of (Some 1) 10 true);
                  (2, profile_of (Some 2) 20 false)])
    empty_world.

(** Three saves: the second profile with the flag, a new profile without
    it, a new profile with it. *)
Definition profiles_to_save : list UserProfile.t :=
  [profile_of (Some 2) 20 true; profile_of None 30 false;
   profile_of None 40 true].

(** A roster at time 80: two users, a feed of three events of which the
    second matches no user, a shift already known to the feed and a
    manual shift in the future. *)
Definition roster_world : World :=
  with_shifts
    (list_to_map
       [(1, Shift.mk (Some 1) 90 95 2 "e1" false);
        (2, Shift.mk (Some 2) 500 600 1 "manual" false)])
    (with_users
       (list_to_map [(1, User.mk 1 "Alice" true); (2, User.mk 2 "bob" true)])
       (with_get_events
          [Event.mk "e1" " alice " 100 200;
           Event.mk "e2" "lunch" 100 130;
           Event.mk "e3" "BOB" 50 60]
          (world_at 80))).

(** ** The methods no executor calls *)

(** [StatusCheck.last_result]: the first of the recent results, [None]
    when indexing fails. *)
Definition last_result (self : StatusCheck.t) (w : World)
  : option StatusCheckResult.t :=
  head (recent_results self w).

(** [StatusCheckResult.status] *)
Definition status (result : StatusCheckResult.t) : string :=
  if StatusCheckResult.succeeded result then "succeeded" else "failed".

(** [StatusCheckResult.took]: the [microseconds] attribute of the
    difference, which is its part below one second, divided by 1000;
    [None] when the subtraction fails on a missing completion time. *)
Definition took (result : StatusCheckResult.t) : option Z :=
  match StatusCheckResult.time_complete result with
  | Some time_complete =>
      Some (((time_complete - StatusCheckResult.time result) mod 1000000)
            / 1000)
  | None => None
  end.

(** [StatusCheckResult.short_error]; [len(None)] raises. *)
Definition short_error (result : StatusCheckResult.t) : outcome string :=
  let snippet_len := 30%nat in
  match StatusCheckResult.error result with
  | Some error =>
      if (snippet_len <? String.length error)%nat
      then py_format "%s..."
             (Single (VStr (substring 0 (snippet_len - 3) error)))
      else Return error
  | None => Raise (TypeError "object of type 'NoneType' has no len()")
  end.

(** [UserProfile.prefixed_mobile_number] *)
Definition prefixed_mobile_number (self : UserProfile.t) : outcome string :=
  py_format "+%s" (Single (VStr (UserProfile.mobile_number self))).

(** [Service.inactive_status_checks] and [Service.all_passing_checks] *)
Definition inactive_status_checks (self : Service.t) (w : World)
  : list StatusCheck.t :=
  checks_of self (fun c => negb (StatusCheck.active c)) w.

Definition all_passing_checks (self : Service.t) (w : World)
  : list StatusCheck.t :=
  checks_of self
    (fun c => StatusCheck.active c
              && String.eqb (StatusCheck.calculated_status c)
                   Service.CALCULATED_PASSING_STATUS) w.

(** Every result of the check in the store completed before [t]. *)
Definition completed_before (self : StatusCheck.t) (w : World) (t : Z)
  : Prop :=
  forall k r,
    results w !! k = Some r ->
    StatusCheckResult.check r = StatusCheck.id self ->
    match StatusCheckResult.time_complete r with
    | Some t' => t' < t
    | None => True
    end.

(** One earlier, failed run of the check [deploy]; the clock has moved on
    to 1000. *)
Definition one_failure_world : World :=
  with_clock (fun n => 1000 + Z.of_nat n)
    (with_results {[1 := result_at 1 false]} empty_world).

(** The operators the metric check knows. *)
Definition supported_check_types : list string := ["<"; "<="; ">"; ">="; "=="].

Definition supported_check_type (check_type : option string) : bool :=
  match check_type with
  | Some op => existsb (String.eqb op) supported_check_types
  | None => false
  end.


Definition odd_check : StatusCheck.t :=
  StatusCheck.mk 1 "cpu" true Service.ERROR_STATUS 5 0
    Service.CALCULATED_PASSING_STATUS None None (Some "stats.cpu") (Some "!=")
    (Some "4.0") (Some 1) None.

(** ** The build check on an enabled job *)








(* ===================================================================== *)
(** * Part II.  Properties                                                *)
(* ===================================================================== *)

(** ** The debounce evaluator *)

Lemma any_succeeded_existsb window :
  any_succeeded window = existsb StatusCheckResult.succeeded window.
Proof.
  induction window as [|r window IH]; simpl; [done|].
  rewrite IH. by destruct (StatusCheckResult.succeeded r).
Qed.

Lemma any_succeeded_true window :
  any_succeeded window = true <->
  exists r, r ∈ window /\ StatusCheckResult.succeeded r = true.
Proof.
  rewrite any_succeeded_existsb, existsb_exists.
  split; intros (r & Hin & Hr); exists r; split; try done;
    by apply list_elem_of_In.
Qed.

Lemma any_succeeded_false window :
  any_succeeded window = false <->
  Forall (fun r => StatusCheckResult.succeeded r = false) window.
Proof.
  induction window as [|r window IH]; simpl.
  - split; [constructor | done].
  - destruct (StatusCheckResult.succeeded r) eqn:Hr.
    + split; [done | intros H; inversion H; congruence].
    + rewrite IH. split; [by constructor | by inversion 1].
Qed.

Lemma slice_to_nonneg {A} (l : list A) (k : Z) :
  0 <= k -> slice_to l k = take (Z.to_nat k) l.
Proof. intros Hk. unfold slice_to. by rewrite (Zle_imp_le_bool _ _ Hk). Qed.


(** The window of a debounce [d >= 0] is the first [d + 1] results. *)
Lemma debounce_window {A} (history : list A) (d : Z) :
  0 <= d ->
  slice_to history (d + 1) = take (S (Z.to_nat d)) history.
Proof.
  intros Hd. rewrite slice_to_nonneg by lia.
  by replace (Z.to_nat (d + 1)) with (S (Z.to_nat d)) by lia.
Qed.

(** C2.  Applied to a most-recent-first history and a debounce [d], the
    evaluator answers passing on the empty history, passing when one of
    the first [d + 1] results succeeded, and failing otherwise: on a
    non-empty history it answers failing exactly when the first [d + 1]
    results all failed. *)
Theorem calculate_debounced_passing_spec
    (history : list StatusCheckResult.t) (d : Z) (Hd : 0 <= d) :
  let window := take (S (Z.to_nat d)) history in
  let status := calculated_status_of (calculate_debounced_passing history d) in
  (history = [] -> status = Service.CALCULATED_PASSING_STATUS) /\
  ((exists r, r ∈ window /\ StatusCheckResult.succeeded r = true) ->
   status = Service.CALCULATED_PASSING_STATUS) /\
  (history <> [] ->
   Forall (fun r => StatusCheckResult.succeeded r = false) window ->
   status = Service.CALCULATED_FAILING_STATUS) /\
  (status = Service.CALCULATED_FAILING_STATUS <->
   history <> [] /\
   Forall (fun r => StatusCheckResult.succeeded r = false) window).
Proof.
  intros window status. subst status.
  assert (Hcalc : history <> [] ->
            calculate_debounced_passing history d = any_succeeded window).
  { intros Hne. unfold calculate_debounced_passing.
    destruct history; [done|]. by rewrite debounce_window. }
  split; [|split; [|split; [|split]]].
  - by intros ->.
  - intros Hex. destruct history as [|r0 history'] eqn:Hh; [done|].
    rewrite Hcalc by done.
    apply any_succeeded_true in Hex. by rewrite Hex.
  - intros Hne Hall. rewrite Hcalc by done.
    apply any_succeeded_false in Hall. by rewrite Hall.
  - intros Hfail. destruct history as [|r0 history'] eqn:Hh; [done|].
    split; [done|]. rewrite Hcalc in Hfail by done.
    apply any_succeeded_false.
    destruct (any_succeeded window); [done | done].
  - intros [Hne Hall]. rewrite Hcalc by done.
    apply any_succeeded_false in Hall. by rewrite Hall.
Qed.

Lemma calculate_debounced_passing_witness :
  0 <= 1 /\
  let history := [StatusCheckResult.mk (Some 2) 1 20 (Some 21) None false None;
                  StatusCheckResult.mk (Some 1) 1 10 (Some 11) None true None;
                  StatusCheckResult.mk (Some 0) 1 0 (Some 1) None false None] in
  calculated_status_of (calculate_debounced_passing history 1)
  = Service.CALCULATED_PASSING_STATUS.
Proof.
  split; [lia|]. intros history.
  apply (calculate_debounced_passing_spec history 1); [lia|].
  eexists. split; [apply list_elem_of_lookup; by exists 1%nat | reflexivity].
Defined.

(** With a negative debounce the slice counts from the end of the
    history: [-2] drops the oldest result instead of taking none. *)
Example calculate_debounced_passing_negative :
  calculate_debounced_passing
    [StatusCheckResult.mk (Some 1) 1 10 (Some 11) None true None;
     StatusCheckResult.mk (Some 0) 1 0 (Some 1) None false None] (-2) = true.
Proof. reflexivity. Qed.

(** ** StatusCheck.save *)

Lemma StatusCheck_save_eq self w :
  StatusCheck_save (self, w) =
  let recent := recent_results self w in
  let self' := StatusCheck.with_calculated
                 (calculated_status_of
                    (calculate_debounced_passing recent (StatusCheck.debounce self)))
                 (serialize_recent_results recent) self in
  (Return tt,
   (self', with_status_checks
             (<[StatusCheck.id self := self']> (status_checks w)) w)).
Proof. reflexivity. Qed.

Lemma recent_results_length self w : (length (recent_results self w) <= 10)%nat.
Proof. unfold recent_results. rewrite length_take. lia. Qed.





(** ** The formatting operator on the formats of the module *)

Lemma append_nil (b : string) : EmptyString +:+ b = b.
Proof. reflexivity. Qed.

Lemma append_cons x (a b : string) : String x a +:+ b = String x (a +:+ b).
Proof. reflexivity. Qed.

Lemma append_assoc (a b c : string) : (a +:+ b) +:+ c = a +:+ (b +:+ c).
Proof.
  induction a as [|x a IH]; [done|]. rewrite !append_cons. by f_equal.
Qed.

Lemma format_go_text (c : ascii) fmt args acc :
  Ascii.eqb c "%" = false ->
  format_go (String c fmt) Text args acc
  = format_go fmt Text args (acc +:+ String c EmptyString).
Proof. intros H. simpl. by rewrite H. Qed.

Lemma format_go_s fmt v args acc s :
  py_str v = Return s ->
  format_go (String "%" (String "s" fmt)) Text (v :: args) acc
  = format_go fmt Text args (acc +:+ s).
Proof.
  intros H. simpl. change (is_digit "s") with false. cbn. by rewrite H.
Qed.

Ltac format_lit :=
  unfold py_format;
  repeat first [ rewrite format_go_s by reflexivity
               | rewrite format_go_text by reflexivity ];
  cbn; rewrite ?append_assoc, ?append_cons, ?append_nil.

Lemma format_not_found name :
  py_format "Job %s not found on Jenkins" (Single (VStr name))
  = Return ("Job " +:+ name +:+ " not found on Jenkins").
Proof. format_lit. reflexivity. Qed.

(** A format without conversion leaves its operand over. *)
Lemma format_disabled name :
  py_format "Job disabled on Jenkins" (Single (VStr name))
  = Raise not_all_converted.
Proof. reflexivity. Qed.

(** ** The build check *)

Lemma jenkins_run_not_found self w :
  get_job_status w (StatusCheck.name self) = RaisesHTTPError ->
  JenkinsStatusCheck_run (self, w)
  = (Return tt,
     after_record self w
       (jenkins_result self w false
          ("Job " +:+ StatusCheck.name self +:+ " not found on Jenkins"))).
Proof.
  intros H. unfold JenkinsStatusCheck_run, bind, in_world, get_self, get_world.
  cbn. rewrite H. unfold lift_outcome. rewrite format_not_found. reflexivity.
Qed.

Lemma jenkins_run_other_error self w :
  get_job_status w (StatusCheck.name self) = RaisesOther ->
  JenkinsStatusCheck_run (self, w)
  = (Return tt,
     after_record self w
       (jenkins_result self w true "Error fetching from Jenkins")).
Proof.
  intros H. unfold JenkinsStatusCheck_run, bind, in_world, get_self, get_world.
  cbn. rewrite H. reflexivity.
Qed.




(** Every run that finds the job disabled stops at the formatting of its
    message: the operand has no conversion to go to.  Nothing is written;
    only the clock was read. *)
Lemma jenkins_run_disabled self w status :
  get_job_status w (StatusCheck.name self) = JobStatusOf status ->
  JobStatus.active status = false ->
  JenkinsStatusCheck_run (self, w)
  = (Raise not_all_converted, (self, with_ticks (S (ticks w)) w)).
Proof.
  intros H Hactive.
  unfold JenkinsStatusCheck_run, bind, in_world, get_self, get_world.
  cbn. rewrite H, Hactive. reflexivity.
Qed.

(** C6.  On the build check [deploy], with the backend reporting the job
    as not active, the run raises [TypeError] where it builds the message
    "Job disabled on Jenkins"; no result is recorded. *)
Theorem jenkins_run_disabled_raises :
  let w := with_get_job_status
             (fun _ => JobStatusOf (JobStatus.mk false true None)) empty_world in
  JenkinsStatusCheck_run (deploy_check, w)
  = (Raise (TypeError "not all arguments converted during string formatting"),
     (deploy_check, with_ticks 1 w)) /\
  results (snd (snd (JenkinsStatusCheck_run (deploy_check, w)))) = ∅.
Proof.
  intros w.
  rewrite (jenkins_run_disabled deploy_check w (JobStatus.mk false true None))
    by reflexivity.
  split; reflexivity.
Qed.


(** ** The metric check *)


Lemma float_of_string_5_0 : float_of_string "5.0" = Return (float_of_int 5).
Proof. vm_compute. reflexivity. Qed.



(** Without a host count to check, the message stops after the threshold. *)
Lemma format_error_message_no_hosts self :
  StatusCheck.check_type self = Some ">" ->
  StatusCheck.value self = Some "4.0" ->
  StatusCheck.expected_num_hosts self = Some 0 ->
  format_error_message self (Some (float_of_int 5)) 1 = Return "5.0 > 4.0".
Proof.
  intros Hop Hvalue Hhosts. unfold format_error_message.
  rewrite Hop, Hvalue, Hhosts. vm_compute. reflexivity.
Qed.





(** ** The alert throttle *)

Lemma sent_within_eq self w m :
  sent_within m (self, w) =
  match Service.last_alert_sent self with
  | None => (Return false, (self, w))
  | Some last =>
      (Return (clock w (ticks w) - timedelta_minutes m <? last),
       (self, with_ticks (S (ticks w)) w))
  end.
Proof.
  unfold sent_within, bind, get_self. cbn.
  by destruct (Service.last_alert_sent self).
Qed.

Lemma in_critical_or_error status :
  bool_decide (status ∈ [Service.CRITICAL_STATUS; Service.ERROR_STATUS])
  = (String.eqb status Service.ERROR_STATUS
     || String.eqb status Service.CRITICAL_STATUS)%bool.
Proof.
  destruct (String.eqb_spec status Service.ERROR_STATUS) as [->|Hne1];
    [apply bool_decide_eq_true, list_elem_of_further, list_elem_of_here|].
  destruct (String.eqb_spec status Service.CRITICAL_STATUS) as [->|Hne2];
    [apply bool_decide_eq_true, list_elem_of_here|].
  apply bool_decide_eq_false. intros H.
  apply elem_of_cons in H as [H|H]; [done|].
  apply elem_of_cons in H as [H|H]; [done|].
  by apply not_elem_of_nil in H.
Qed.

Lemma throttled_eq self w :
  throttled (self, w) =
  match cooldown_minutes (Service.overall_status self) with
  | Some m => sent_within m (self, w)
  | None => (Return false, (self, w))
  end.
Proof.
  unfold throttled, bind, get_self, cooldown_minutes. cbn [fst snd].
  rewrite in_critical_or_error.
  destruct (String.eqb _ Service.WARNING_STATUS); [done|].
  by destruct (_ || _)%bool.
Qed.

(** The throttle answers [true] exactly within the cooldown. *)
Lemma throttled_within self w :
  fst (throttled (self, w)) = Return true <->
  within_cooldown self (clock w (ticks w)).
Proof.
  rewrite throttled_eq. unfold within_cooldown.
  destruct (cooldown_minutes _) as [m|] eqn:Hm.
  - rewrite sent_within_eq.
    destruct (Service.last_alert_sent self) as [last|] eqn:Hlast; cbn.
    + split.
      * intros [= H]. exists last, m. repeat split; try done.
        apply Z.ltb_lt in H. lia.
      * intros (last' & m' & Hl & Hm' & H).
        injection Hl as <-. injection Hm' as <-.
        f_equal. apply Z.ltb_lt. lia.
    + split; [done|]. by intros (? & ? & ? & _).
  - cbn. split; [done|]. by intros (? & ? & _ & ? & _).
Qed.



Lemma alert_held self w :
  Service.alerts_enabled self = true ->
  Service.overall_status self <> Service.PASSING_STATUS ->
  within_cooldown self (clock w (ticks w)) ->
  alert (self, w) = (Return tt, (self, with_ticks (S (ticks w)) w)).
Proof.
  intros Hen Hst Hin. pose proof (proj2 (throttled_within self w) Hin) as Hth.
  unfold alert, bind, get_self. cbn [fst snd]. rewrite Hen. cbn [negb].
  destruct (String.eqb_spec (Service.overall_status self) Service.PASSING_STATUS);
    [done|]. cbn [negb].
  destruct Hin as (last & m & Hlast & Hm & _).
  rewrite throttled_eq, Hm, sent_within_eq, Hlast in Hth |- *.
  cbn in Hth. injection Hth as ->. done.
Qed.

Lemma alert_not_held self w :
  Service.alerts_enabled self = true ->
  Service.overall_status self <> Service.PASSING_STATUS ->
  ~ within_cooldown self (clock w (ticks w)) ->
  let n := (ticks w + throttle_reads self)%nat in
  alert (self, w)
  = alert_send (Service.with_last_alert_sent (Some (clock w n)) self,
                with_ticks (S n) w).
Proof.
  intros Hen Hst Hout n. subst n.
  pose proof (throttled_within self w) as Hth.
  unfold alert, bind, get_self, in_world, set_self. cbn [fst snd].
  rewrite Hen. cbn [negb].
  destruct (String.eqb_spec (Service.overall_status self) Service.PASSING_STATUS);
    [done|]. cbn [negb].
  unfold throttle_reads.
  rewrite throttled_eq in Hth |- *.
  destruct (cooldown_minutes _) as [m|].
  - rewrite sent_within_eq in Hth |- *.
    destruct (Service.last_alert_sent self) as [last|].
    + cbn in Hth. destruct (_ <? last).
      * exfalso. by apply Hout, Hth.
      * cbn. by rewrite Nat.add_1_r.
    + cbn. by rewrite Nat.add_0_r.
  - cbn. destruct (Service.last_alert_sent self); by rewrite Nat.add_0_r.
Qed.

(** The roster lookup reads the clock and nothing else changes; the only
    exception it lets out is that of several fallback profiles. *)
Lemma get_duty_officers_None w :
  exists o,
    get_duty_officers None w = (o, with_ticks (S (ticks w)) w) /\
    (forall e, o = Raise e -> e = MultipleObjectsReturned).
Proof.
  unfold get_duty_officers, bind, timezone_now, get. cbn.
  destruct (rows _ _) as [|shift current].
  - destruct (objects_get _ _ _); cbn; eexists; (split; [reflexivity|]);
      intros e [=]; done.
  - cbn. eexists. split; [reflexivity|]. intros e [=].
Qed.

(** What [alert_send] does to the object and to the tables. *)
Lemma alert_send_spec self w snap :
  Service.snapshot self = Some snap ->
  exists o self' w' snap',
    alert_send (self, w) = (o, (self', w')) /\
    self' = Service.with_snapshot (Some snap') self /\
    ServiceStatusSnapshot.did_send_alert snap' = true /\
    (exists k, ServiceStatusSnapshot.id snap' = Some k /\
               snapshots w' !! k = Some snap') /\
    services w' = <[Service.id self := self]> (services w) /\
    match o with
    | Return _ => exists duty_officers,
        sent w' = (sent w ++ [(self', duty_officers)])%list
    | Raise e => e = MultipleObjectsReturned /\ sent w' = sent w
    end.
Proof.
  intros Hsnap.
  unfold alert_send, bind, get_self, in_world, set_self, Service_save, modify,
    ServiceStatusSnapshot_save, send_alert.
  cbn [fst snd]. rewrite Hsnap. cbn [fst snd].
  set (w1 := with_services _ w).
  destruct (save_row _ _ _ (snapshots w1)) as [snap' table] eqn:Hsave.
  cbn [fst snd].
  set (w2 := with_snapshots table w1).
  destruct (get_duty_officers_None w2) as (o & -> & Hexn).
  assert (Hrow : ServiceStatusSnapshot.did_send_alert snap' = true /\
                 exists k, ServiceStatusSnapshot.id snap' = Some k /\
                           table !! k = Some snap').
  { unfold save_row in Hsave.
    destruct (ServiceStatusSnapshot.id
                (ServiceStatusSnapshot.with_did_send_alert true snap))
      as [i|] eqn:Hid; injection Hsave as <- <-.
    - split; [done|]. exists i. by rewrite lookup_insert_eq.
    - split; [done|]. eexists. split; [reflexivity|].
      by rewrite lookup_insert_eq. }
  destruct Hrow as [Hmark Hrow].
  destruct o as [d|e]; cbn [fst snd].
  - eexists _, _, _, snap'. split; [reflexivity|].
    repeat split; try done. by exists d.
  - eexists _, _, _, snap'. split; [reflexivity|].
    repeat split; try done. by apply Hexn.
Qed.

Lemma alert_send_last_alert_sent self w :
  Service.last_alert_sent (fst (snd (alert_send (self, w))))
  = Service.last_alert_sent self.
Proof.
  unfold alert_send, bind, get_self, in_world, set_self, Service_save, modify,
    ServiceStatusSnapshot_save, send_alert, raise.
  cbn [fst snd].
  destruct (Service.snapshot self) as [snap|]; [|done]. cbn [fst snd].
  destruct (save_row _ _ _ _) as [snap' table]. cbn [fst snd].
  destruct (get_duty_officers None _) as [[d|e] w3]; done.
Qed.

Lemma alert_send_services self w :
  services (snd (snd (alert_send (self, w))))
  = <[Service.id self := self]> (services w).
Proof.
  unfold alert_send, bind, get_self, in_world, set_self, Service_save, modify,
    ServiceStatusSnapshot_save, send_alert, raise.
  cbn [fst snd].
  destruct (Service.snapshot self) as [snap|]; [|done]. cbn [fst snd].
  destruct (save_row _ _ _ _) as [snap' table]. cbn [fst snd].
  destruct (get_duty_officers_None
              (with_snapshots table
                 (with_services (<[Service.id self:=self]> (services w)) w)))
    as (o & -> & _).
  by destruct o.
Qed.

(** C3.  For a service with alerting enabled and a status other than
    PASSING, the alert step is suppressed exactly when there is a previous
    alert within the cooldown of the status (120 minutes for WARNING, 10
    for ERROR and CRITICAL), counted from [last_alert_sent] to the reading
    of the clock: then the object, the tables and the log of sent alerts
    are as before.  Otherwise [last_alert_sent] becomes the next reading
    of the clock, the service is stored with it and the snapshot of the
    cycle is marked.  With status ERROR and [last_alert_sent = T], a
    reading of [T + 9 min] leaves [last_alert_sent] at [T] and a reading of
    [T + 11 min] replaces it. *)
Theorem alert_throttle (self : Service.t) (w : World)
    (Henabled : Service.alerts_enabled self = true)
    (Hstatus : Service.overall_status self <> Service.PASSING_STATUS) :
  let now := clock w (ticks w) in
  (within_cooldown self now ->
   exists w',
     alert (self, w) = (Return tt, (self, w')) /\
     services w' = services w /\ snapshots w' = snapshots w /\
     sent w' = sent w) /\
  (~ within_cooldown self now ->
   exists o self' w',
     alert (self, w) = (o, (self', w')) /\
     let now' := clock w (ticks w + throttle_reads self) in
     Service.last_alert_sent self' = Some now' /\
     (exists row, services w' !! Service.id self = Some row /\
                  Service.last_alert_sent row = Some now') /\
     (forall snap, Service.snapshot self = Some snap ->
        exists snap', Service.snapshot self' = Some snap' /\
                      ServiceStatusSnapshot.did_send_alert snap' = true)) /\
  (forall T : Z,
     Service.overall_status self = Service.ERROR_STATUS ->
     Service.last_alert_sent self = Some T ->
     (now = T + timedelta_minutes 9 ->
      Service.last_alert_sent (fst (snd (alert (self, w)))) = Some T) /\
     (now = T + timedelta_minutes 11 ->
      Service.last_alert_sent (fst (snd (alert (self, w))))
      = Some (clock w (S (ticks w))))).
Proof.
  intros now. split; [|split].
  - intros Hin. rewrite (alert_held self w Henabled Hstatus Hin).
    eexists. split; [reflexivity|]. done.
  - intros Hout. rewrite (alert_not_held self w Henabled Hstatus Hout).
    set (self1 := Service.with_last_alert_sent _ self).
    set (w1 := with_ticks _ w).
    destruct (alert_send (self1, w1)) as [o [self' w']] eqn:Hsend.
    exists o, self', w'. split; [reflexivity|]. cbn zeta.
    split; [|split].
    + change self' with (fst (snd (o, (self', w')))). rewrite <- Hsend.
      by rewrite alert_send_last_alert_sent.
    + change w' with (snd (snd (o, (self', w')))). rewrite <- Hsend.
      rewrite alert_send_services. exists self1.
      by rewrite lookup_insert_eq.
    + intros snap Hsnap.
      destruct (alert_send_spec self1 w1 snap Hsnap)
        as (o' & self'' & w'' & snap' & Heq & -> & Hmark & _).
      rewrite Hsend in Heq. injection Heq as _ -> _.
      by exists snap'.
  - intros T Herr Hlast.
    assert (Hm : cooldown_minutes (Service.overall_status self) = Some 10)
      by by rewrite Herr.
    split; intros Hnow.
    + rewrite (alert_held self w Henabled Hstatus); [done|].
      exists T, 10. repeat split; try done. fold now. rewrite Hnow.
      unfold timedelta_minutes. lia.
    + rewrite (alert_not_held self w Henabled Hstatus).
      * rewrite alert_send_last_alert_sent. cbn.
        unfold throttle_reads. rewrite Hlast, Hm.
        by rewrite Nat.add_1_r.
      * intros (last & m & Hl & Hm' & Hlt).
        rewrite Hlast in Hl. injection Hl as <-.
        rewrite Hm in Hm'. injection Hm' as <-.
        fold now in Hlt. rewrite Hnow in Hlt.
        unfold timedelta_minutes in Hlt. lia.
Qed.

Lemma alert_throttle_witness :
  Service.alerts_enabled failing_service = true /\
  Service.overall_status failing_service <> Service.PASSING_STATUS /\
  Service.last_alert_sent
    (fst (snd (alert (failing_service, world_at (timedelta_minutes 9)))))
  = Some 0 /\
  Service.last_alert_sent
    (fst (snd (alert (failing_service, world_at (timedelta_minutes 11)))))
  = Some (timedelta_minutes 11).
Proof.
  split; [reflexivity|]. split; [discriminate|]. split.
  - destruct (alert_throttle failing_service (world_at (timedelta_minutes 9))
                eq_refl ltac:(discriminate)) as (_ & _ & H).
    destruct (H 0 eq_refl eq_refl) as [H9 _]. apply H9. reflexivity.
  - destruct (alert_throttle failing_service (world_at (timedelta_minutes 11))
                eq_refl ltac:(discriminate)) as (_ & _ & H).
    destruct (H 0 eq_refl eq_refl) as [_ H11]. apply H11. reflexivity.
Defined.

(** ** Recovery *)




(** ** Severity aggregation *)

Lemma with_snapshot_same (s : Service.t) :
  Service.with_snapshot (Service.snapshot s) s = s.
Proof. by destruct s. Qed.

Lemma with_last_alert_sent_same (s : Service.t) :
  Service.with_last_alert_sent (Service.last_alert_sent s) s = s.
Proof. by destruct s. Qed.

Lemma alert_send_frame s w :
  exists sn, fst (snd (alert_send (s, w))) = Service.with_snapshot sn s.
Proof.
  unfold alert_send, bind, get_self, in_world, set_self, Service_save, modify,
    ServiceStatusSnapshot_save, send_alert, raise.
  cbn [fst snd].
  destruct (Service.snapshot s) as [snap|] eqn:Hsnap; cbn [fst snd].
  - destruct (save_row _ _ _ _) as [snap' table]. cbn [fst snd].
    destruct (get_duty_officers None _) as [[d|e] w3]; by eexists.
  - exists None. by rewrite <- Hsnap, with_snapshot_same.
Qed.

(** [alert] touches two attributes of the object: [last_alert_sent] and
    [snapshot]. *)
Lemma alert_frame s w :
  exists v sn,
    fst (snd (alert (s, w)))
    = Service.with_snapshot sn (Service.with_last_alert_sent v s).
Proof.
  assert (Hsame : exists v sn,
            s = Service.with_snapshot sn (Service.with_last_alert_sent v s)).
  { exists (Service.last_alert_sent s), (Service.snapshot s).
    by rewrite with_last_alert_sent_same, with_snapshot_same. }
  unfold alert, bind, get_self, in_world, set_self, timezone_now.
  cbn [fst snd].
  destruct (Service.alerts_enabled s); cbn [negb]; [|apply Hsame].
  destruct (String.eqb _ Service.PASSING_STATUS); cbn [negb fst snd].
  - destruct (alert_send_frame (Service.with_last_alert_sent None s) w)
      as [sn ->]. by eexists _, _.
  - rewrite throttled_eq.
    destruct (cooldown_minutes _) as [m|].
    + rewrite sent_within_eq.
      destruct (Service.last_alert_sent s) as [last|] eqn:Hlast.
      * destruct (_ <? last); [apply Hsame|]. cbn [fst snd].
        match goal with |- context [alert_send (?a, ?b)] =>
          destruct (alert_send_frame a b) as [sn ->] end.
        by eexists _, _.
      * cbn [fst snd].
        match goal with |- context [alert_send (?a, ?b)] =>
          destruct (alert_send_frame a b) as [sn ->] end.
        by eexists _, _.
    + cbn [fst snd].
      match goal with |- context [alert_send (?a, ?b)] =>
        destruct (alert_send_frame a b) as [sn ->] end.
      by eexists _, _.
Qed.

Lemma update_status_self self w :
  exists v sn,
    fst (snd (update_status (self, w)))
    = Service.with_snapshot sn
        (Service.with_last_alert_sent v
           (Service.with_overall_status
              (most_severe (all_failing_checks self w))
              (Service.with_old_overall_status
                 (Service.overall_status self) self))).
Proof.
  unfold update_status, bind, get_self, get_world, in_world, set_self,
    timezone_now, ServiceStatusSnapshot_save, Service_save, modify.
  cbn [fst snd].
  destruct (save_row _ _ _ _) as [snap table]. cbn [fst snd].
  set (self3 := Service.with_snapshot (Some snap) _).
  destruct (negb _).
  - destruct (alert_frame self3 (with_services
                (<[Service.id self3 := self3]>
                   (services (with_snapshots table (with_ticks (S (ticks w)) w))))
                (with_snapshots table (with_ticks (S (ticks w)) w))))
      as (v & sn & Heq).
    exists v, sn. cbn in Heq |- *. rewrite Heq. done.
  - cbn. eexists (Service.last_alert_sent self), (Some snap).
    by destruct self.
Qed.

(** The failing checks of a service: its active checks whose calculated
    status is not passing. *)
Lemma all_failing_checks_spec self w c :
  c ∈ all_failing_checks self w <->
  exists k, status_checks w !! k = Some c /\
            k ∈ Service.status_checks self /\
            StatusCheck.active c = true /\
            StatusCheck.calculated_status c
            <> Service.CALCULATED_PASSING_STATUS.
Proof.
  unfold all_failing_checks, checks_of.
  rewrite list_elem_of_fmap. split.
  - intros ([k c'] & -> & Hin). apply list_elem_of_filter in Hin.
    destruct Hin as [[Hk Hp] Hin]. apply elem_of_map_to_list in Hin.
    cbn in *. apply andb_true_iff in Hp as [Hact Hcalc].
    exists k. repeat split; try done.
    intros Heq. rewrite Heq in Hcalc. done.
  - intros (k & Hlook & Hk & Hact & Hcalc). exists (k, c). split; [done|].
    apply list_elem_of_filter. split; [|by apply elem_of_map_to_list].
    cbn. split; [done|]. rewrite Hact. cbn.
    by destruct (String.eqb_spec (StatusCheck.calculated_status c)
                   Service.CALCULATED_PASSING_STATUS).
Qed.

Lemma most_severe_cases checks :
  let failures := map StatusCheck.importance checks in
  (Service.CRITICAL_STATUS ∈ failures /\
   most_severe checks = Service.CRITICAL_STATUS) \/
  ((Service.CRITICAL_STATUS ∉ failures) /\
   Service.ERROR_STATUS ∈ failures /\
   most_severe checks = Service.ERROR_STATUS) \/
  ((Service.CRITICAL_STATUS ∉ failures) /\
   (Service.ERROR_STATUS ∉ failures) /\
   Service.WARNING_STATUS ∈ failures /\
   most_severe checks = Service.WARNING_STATUS) \/
  ((Service.CRITICAL_STATUS ∉ failures) /\
   (Service.ERROR_STATUS ∉ failures) /\
   (Service.WARNING_STATUS ∉ failures) /\
   most_severe checks = Service.PASSING_STATUS).
Proof.
  intros failures. unfold most_severe. fold failures.
  repeat case_bool_decide; tauto.
Qed.

Lemma importance_cases (status : string) :
  status ∈ Service.IMPORTANCES ->
  status = Service.WARNING_STATUS \/ status = Service.ERROR_STATUS \/
  status = Service.CRITICAL_STATUS.
Proof.
  unfold Service.IMPORTANCES. intros H.
  apply elem_of_cons in H as [H|H]; [by left|].
  apply elem_of_cons in H as [H|H]; [by right; left|].
  apply elem_of_cons in H as [H|H]; [by right; right|].
  by apply not_elem_of_nil in H.
Qed.

(** [most_severe] answers one of the statuses it was given, or PASSING. *)
Lemma most_severe_elem checks :
  most_severe checks ∈
  Service.PASSING_STATUS :: map StatusCheck.importance checks.
Proof.
  destruct (most_severe_cases checks)
    as [(H & ->)|[(_ & H & ->)|[(_ & _ & H & ->)|(_ & _ & _ & ->)]]];
    first [ by apply list_elem_of_further | apply list_elem_of_here ].
Qed.

(** No failing check of a known importance is more severe than it. *)
Lemma most_severe_upper checks c :
  c ∈ checks ->
  StatusCheck.importance c ∈ Service.IMPORTANCES ->
  (severity (StatusCheck.importance c) <= severity (most_severe checks))%nat.
Proof.
  intros Hc Himp.
  assert (Hin : StatusCheck.importance c ∈ map StatusCheck.importance checks).
  { apply list_elem_of_fmap. by exists c. }
  destruct (importance_cases _ Himp) as [Heq|[Heq|Heq]]; rewrite Heq in *;
    destruct (most_severe_cases checks)
      as [(H & ->)|[(H1 & H & ->)|[(H1 & H2 & H & ->)|(H1 & H2 & H3 & ->)]]];
    try done; cbn; lia.
Qed.

Lemma max_severity_cons a statuses :
  max_severity (a :: statuses)
  = if (severity (max_severity statuses) <? severity a)%nat then a
    else max_severity statuses.
Proof. reflexivity. Qed.

Lemma max_severity_elem statuses :
  max_severity statuses ∈ Service.PASSING_STATUS :: statuses.
Proof.
  induction statuses as [|a statuses IH]; [apply list_elem_of_here|].
  rewrite max_severity_cons.
  destruct (severity _ <? severity a)%nat.
  - apply list_elem_of_further, list_elem_of_here.
  - apply elem_of_cons in IH as [->|IH]; [apply list_elem_of_here|].
    by do 2 apply list_elem_of_further.
Qed.

Lemma max_severity_upper statuses a :
  a ∈ statuses -> (severity a <= severity (max_severity statuses))%nat.
Proof.
  induction statuses as [|b statuses IH];
    [by intros Hin; apply not_elem_of_nil in Hin|].
  intros Hin. rewrite max_severity_cons.
  destruct (Nat.ltb_spec (severity (max_severity statuses)) (severity b)).
  - apply elem_of_cons in Hin as [->|Hin]; [lia|].
    specialize (IH Hin). lia.
  - apply elem_of_cons in Hin as [->|Hin]; [lia|]. by apply IH.
Qed.

Lemma severity_inj (a b : string) :
  a ∈ Service.PASSING_STATUS :: Service.IMPORTANCES ->
  b ∈ Service.PASSING_STATUS :: Service.IMPORTANCES ->
  severity a = severity b -> a = b.
Proof.
  unfold Service.IMPORTANCES. intros Ha Hb.
  repeat (apply elem_of_cons in Ha as [->|Ha]);
    repeat (apply elem_of_cons in Hb as [->|Hb]);
    try done; try (by apply not_elem_of_nil in Ha);
    try (by apply not_elem_of_nil in Hb).
Qed.

(** On known importances [most_severe] is the maximum of the order. *)
Lemma most_severe_max checks :
  Forall (fun c => StatusCheck.importance c ∈ Service.IMPORTANCES) checks ->
  most_severe checks = max_severity (map StatusCheck.importance checks).
Proof.
  intros Hall. rewrite Forall_forall in Hall.
  assert (Hknown : forall a,
            a ∈ Service.PASSING_STATUS :: map StatusCheck.importance checks ->
            a ∈ Service.PASSING_STATUS :: Service.IMPORTANCES).
  { intros a Ha.
    apply elem_of_cons in Ha as [->|Ha]; [apply list_elem_of_here|].
    apply list_elem_of_fmap in Ha as (c & -> & Hc).
    apply elem_of_cons. right. by apply Hall. }
  pose proof (most_severe_elem checks) as Ha.
  pose proof (max_severity_elem (map StatusCheck.importance checks)) as Hb.
  apply severity_inj; [by apply Hknown | by apply Hknown |].
  apply Nat.le_antisymm.
  - apply elem_of_cons in Ha as [->|Ha]; [cbn; lia|].
    by apply max_severity_upper.
  - apply elem_of_cons in Hb as [->|Hb]; [cbn; lia|].
    apply list_elem_of_fmap in Hb as (c & -> & Hc).
    apply most_severe_upper; [done | by apply Hall].
Qed.

(** C4.  [update_status] keeps the previous status in
    [old_overall_status] and sets [overall_status] to [most_severe] of the
    failing checks of the service, which are its active checks whose
    calculated status is not passing: PASSING when there is none and, when
    their importances are WARNING, ERROR or CRITICAL, the maximum in the
    order CRITICAL > ERROR > WARNING > PASSING: no failing check is more
    severe and some failing check is that severe. *)
Theorem update_status_most_severe (self : Service.t) (w : World)
    (Himportances :
       Forall (fun c => StatusCheck.importance c ∈ Service.IMPORTANCES)
              (all_failing_checks self w)) :
  let failing := all_failing_checks self w in
  let self' := fst (snd (update_status (self, w))) in
  (forall c, c ∈ failing <->
     exists k, status_checks w !! k = Some c /\
               k ∈ Service.status_checks self /\
               StatusCheck.active c = true /\
               StatusCheck.calculated_status c
               <> Service.CALCULATED_PASSING_STATUS) /\
  Service.old_overall_status self' = Service.overall_status self /\
  Service.overall_status self' = most_severe failing /\
  Service.overall_status self'
  = max_severity (map StatusCheck.importance failing) /\
  (failing = [] -> Service.overall_status self' = Service.PASSING_STATUS) /\
  (forall c, c ∈ failing ->
     (severity (StatusCheck.importance c)
      <= severity (Service.overall_status self'))%nat) /\
  (failing <> [] ->
   exists c, c ∈ failing /\
             StatusCheck.importance c = Service.overall_status self').
Proof.
  intros failing self'.
  destruct (update_status_self self w) as (v & sn & Hself).
  assert (Hstatus : Service.overall_status self' = most_severe failing).
  { subst self'. by rewrite Hself. }
  split; [apply all_failing_checks_spec|].
  split; [subst self'; by rewrite Hself|].
  split; [done|]. rewrite Hstatus.
  split; [by apply most_severe_max|].
  split; [by intros ->|].
  split.
  - intros c Hc. apply most_severe_upper; [done|].
    by apply (proj1 (Forall_forall _ _) Himportances).
  - intros Hne. pose proof (most_severe_elem failing) as Hin.
    apply elem_of_cons in Hin as [Hpass|Hin].
    + subst failing. clear Hself Hstatus.
      destruct (all_failing_checks self w) as [|c rest]; [done|]. exfalso.
      assert (Hc : c ∈ c :: rest) by apply list_elem_of_here.
      pose proof (most_severe_upper (c :: rest) c Hc
                    (proj1 (Forall_forall _ _) Himportances c Hc)) as Hle.
      rewrite Hpass in Hle.
      destruct (importance_cases _
                  (proj1 (Forall_forall _ _) Himportances c Hc))
        as [Heq|[Heq|Heq]]; rewrite Heq in Hle; cbn in Hle; lia.
    + apply list_elem_of_fmap in Hin as (c & Heq & Hc). by exists c.
Qed.

Lemma update_status_most_severe_witness :
  Forall (fun c => StatusCheck.importance c ∈ Service.IMPORTANCES)
         (all_failing_checks mixed_service mixed_world) /\
  Service.overall_status
    (fst (snd (update_status (mixed_service, mixed_world))))
  = Service.CRITICAL_STATUS.
Proof.
  assert (H : Forall (fun c => StatusCheck.importance c ∈ Service.IMPORTANCES)
                (all_failing_checks mixed_service mixed_world)).
  { vm_compute. repeat constructor. }
  split; [exact H|].
  destruct (update_status_most_severe mixed_service mixed_world H)
    as (_ & _ & -> & _).
  vm_compute. reflexivity.
Defined.

(** ** The fallback profile *)

Lemma UserProfile_save_eq p w :
  UserProfile_save (p, w) =
  let p1 := if startswith (UserProfile.mobile_number p) "+"
            then UserProfile.with_mobile_number
                   (drop_first (UserProfile.mobile_number p)) p
            else p in
  let t1 := if UserProfile.fallback_alert_user p1
            then map_imap (fun k q =>
                   Some (if bool_decide (UserProfile.id p1 = Some k) then q
                         else UserProfile.with_fallback_alert_user false q))
                   (profiles w)
            else profiles w in
  let saved := save_row UserProfile.id UserProfile.with_id p1 t1 in
  (Return tt, (fst saved, with_profiles (snd saved) w)).
Proof.
  unfold UserProfile_save, bind, get_self, set_self, in_world, modify, ret.
  cbn [fst snd].
  destruct (startswith _ _); cbn [fst snd];
    destruct (UserProfile.fallback_alert_user _); cbn [fst snd];
    by destruct (save_row _ _ _ _).
Qed.

(** [save_row] stores the object under the key it ends up carrying. *)
Lemma save_row_profile p t :
  exists i,
    UserProfile.id (fst (save_row UserProfile.id UserProfile.with_id p t))
    = Some i /\
    snd (save_row UserProfile.id UserProfile.with_id p t)
    = <[i := fst (save_row UserProfile.id UserProfile.with_id p t)]> t /\
    (UserProfile.id p = None \/ UserProfile.id p = Some i) /\
    UserProfile.fallback_alert_user
      (fst (save_row UserProfile.id UserProfile.with_id p t))
    = UserProfile.fallback_alert_user p.
Proof.
  unfold save_row. destruct (UserProfile.id p) as [i|] eqn:Hid; cbn.
  - exists i. auto.
  - eexists. split; [reflexivity|]. auto.
Qed.

(** After the save of a profile that has the flag, no other row has it. *)
Lemma save_clears_others p w k q :
  UserProfile.fallback_alert_user p = true ->
  let state := snd (UserProfile_save (p, w)) in
  profiles (snd state) !! k = Some q ->
  UserProfile.id (fst state) <> Some k ->
  UserProfile.fallback_alert_user q = false.
Proof.
  intros Hflag state. subst state. rewrite UserProfile_save_eq. cbn zeta.
  set (p1 := if startswith _ _ then _ else p).
  assert (Hflag1 : UserProfile.fallback_alert_user p1 = true).
  { subst p1. by destruct (startswith _ _). }
  rewrite Hflag1. cbn [fst snd].
  destruct (save_row_profile p1
              (map_imap (fun k q =>
                 Some (if bool_decide (UserProfile.id p1 = Some k) then q
                       else UserProfile.with_fallback_alert_user false q))
                 (profiles w))) as (i & Hid & -> & Hkey & _).
  cbn [profiles with_profiles]. rewrite Hid. intros Hlook Hne.
  rewrite lookup_insert_ne in Hlook by congruence.
  rewrite map_lookup_imap in Hlook.
  destruct (profiles w !! k) as [q0|]; [|done]. cbn in Hlook.
  case_bool_decide as Hk; [|by injection Hlook as <-].
  destruct Hkey as [Hnone|Hsome]; congruence.
Qed.

Lemma save_preserves_unique p w :
  fallback_unique (profiles w) ->
  fallback_unique (profiles (snd (snd (UserProfile_save (p, w))))).
Proof.
  intros Hinv.
  destruct (UserProfile.fallback_alert_user p) eqn:Hflag.
  - (* every row but the saved one is cleared *)
    pose proof (save_clears_others p w) as Hclear. cbn zeta in Hclear.
    intros i j a b Ha Hb Hfa Hfb.
    destruct (decide (UserProfile.id (fst (snd (UserProfile_save (p, w))))
                      = Some i)) as [Hi|Hi];
      destruct (decide (UserProfile.id (fst (snd (UserProfile_save (p, w))))
                        = Some j)) as [Hj|Hj].
    + congruence.
    + specialize (Hclear j b Hflag Hb Hj). congruence.
    + specialize (Hclear i a Hflag Ha Hi). congruence.
    + specialize (Hclear i a Hflag Ha Hi). congruence.
  - (* the table is as before but for an unflagged row *)
    rewrite UserProfile_save_eq. cbn zeta.
    set (p1 := if startswith _ _ then _ else p).
    assert (Hflag1 : UserProfile.fallback_alert_user p1 = false).
    { subst p1. by destruct (startswith _ _). }
    rewrite Hflag1. cbn [fst snd].
    destruct (save_row_profile p1 (profiles w)) as (k & _ & -> & _ & Hf).
    cbn [profiles with_profiles].
    rewrite Hflag1 in Hf.
    intros i j a b Ha Hb Hfa Hfb.
    destruct (decide (k = i)) as [->|Hi].
    { rewrite lookup_insert_eq in Ha. injection Ha as <-. congruence. }
    destruct (decide (k = j)) as [->|Hj].
    { rewrite lookup_insert_eq in Hb. injection Hb as <-. congruence. }
    rewrite lookup_insert_ne in Ha, Hb by done.
    by apply (Hinv i j a b).
Qed.

Lemma save_profiles_preserves_unique ps w :
  fallback_unique (profiles w) ->
  fallback_unique (profiles (save_profiles ps w)).
Proof.
  revert w. induction ps as [|p ps IH]; intros w Hinv; [done|].
  cbn. apply IH. by apply save_preserves_unique.
Qed.

Lemma filter_none {A} (P : A -> Prop) `{forall x, Decision (P x)} (l : list A) :
  (forall x, x ∈ l -> ~ P x) -> filter P l = [].
Proof.
  induction l as [|x l IH]; intros Hno; [done|].
  rewrite filter_cons_False by (apply Hno, list_elem_of_here).
  apply IH. intros y Hy. apply Hno. by apply list_elem_of_further.
Qed.

(** In a list of rows with distinct keys, at most one row passes a test
    that no two keys pass. *)
Lemma unique_rows_length {A} (p : A -> bool) (l : list (Z * A)) :
  NoDup (fst <$> l) ->
  (forall i j a b, (i, a) ∈ l -> (j, b) ∈ l ->
                   p a = true -> p b = true -> i = j) ->
  (length (filter (fun r => p r = true) (snd <$> l)) <= 1)%nat.
Proof.
  induction l as [|[i a] l IH]; intros Hnodup Huniq; [cbn; lia|].
  apply NoDup_cons in Hnodup as [Hfresh Hnodup]. cbn [fmap list_fmap snd].
  destruct (p a) eqn:Hpa.
  - rewrite filter_cons_True by done.
    rewrite filter_none; [cbn; lia|].
    intros b Hb Hpb. apply list_elem_of_fmap in Hb as ([j b'] & -> & Hin).
    cbn in Hpb.
    assert (i = j).
    { apply (Huniq i j a b'); try done; [apply list_elem_of_here|].
      by apply list_elem_of_further. }
    subst j. apply Hfresh. apply list_elem_of_fmap. by exists (i, b').
  - rewrite filter_cons_False by congruence.
    apply IH; [done|]. intros j k b c Hb Hc. apply Huniq;
      by apply list_elem_of_further.
Qed.

(** Uniqueness of the flag, counted: one profile or none has it. *)
Lemma fallback_unique_count table :
  fallback_unique table -> (fallback_count table <= 1)%nat.
Proof.
  intros Huniq. unfold fallback_count, rows.
  apply unique_rows_length; [apply NoDup_fst_map_to_list|].
  intros i j a b Ha Hb. apply elem_of_map_to_list in Ha, Hb.
  by apply Huniq.
Qed.

(** C9.  From a state in which at most one profile has
    [fallback_alert_user], every sequence of profile saves leads to a
    state in which at most one has it, so that one profile or none has
    the flag; and the save of a profile that has the flag leaves it on no
    other row, whatever the state before. *)
Theorem fallback_unique_preserved (w : World) (ps : list UserProfile.t)
    (Hinv : fallback_unique (profiles w)) :
  fallback_unique (profiles (save_profiles ps w)) /\
  (fallback_count (profiles (save_profiles ps w)) <= 1)%nat /\
  (forall (p : UserProfile.t) (w0 : World),
     UserProfile.fallback_alert_user p = true ->
     let state := snd (UserProfile_save (p, w0)) in
     (exists k, UserProfile.id (fst state) = Some k /\
                profiles (snd state) !! k = Some (fst state) /\
                UserProfile.fallback_alert_user (fst state) = true) /\
     (forall k q, profiles (snd state) !! k = Some q ->
                  UserProfile.id (fst state) <> Some k ->
                  UserProfile.fallback_alert_user q = false)).
Proof.
  pose proof (save_profiles_preserves_unique ps w Hinv) as Hafter.
  split; [done|]. split; [by apply fallback_unique_count|].
  intros p w0 Hflag state.
  split; [|intros k q; exact (save_clears_others p w0 k q Hflag)].
  subst state. rewrite UserProfile_save_eq. cbn zeta.
  set (p1 := if startswith _ _ then _ else p).
  assert (Hflag1 : UserProfile.fallback_alert_user p1 = true).
  { subst p1. by destruct (startswith _ _). }
  rewrite Hflag1. cbn [fst snd].
  match goal with |- context [save_row _ _ p1 ?t] =>
    destruct (save_row_profile p1 t) as (i & Hid & Htab & _ & Hf) end.
  exists i. split; [done|]. split; [|congruence].
  cbn [profiles with_profiles]. rewrite Htab. apply lookup_insert_eq.
Qed.

Lemma fallback_unique_preserved_witness :
  fallback_unique (profiles one_fallback_world) /\
  (fallback_count
     (profiles (save_profiles profiles_to_save one_fallback_world)) <= 1)%nat.
Proof.
  assert (H : fallback_unique (profiles one_fallback_world)).
  { intros i j p q Hp Hq Hfp Hfq.
    assert (Hkey : forall k r, profiles one_fallback_world !! k = Some r ->
              UserProfile.fallback_alert_user r = true -> k = 1).
    { intros k r Hr Hfr. cbn in Hr.
      destruct (decide (k = 1)) as [->|H1]; [done|].
      rewrite lookup_insert_ne in Hr by done.
      destruct (decide (k = 2)) as [->|H2].
      - rewrite lookup_insert_eq in Hr. injection Hr as <-. done.
      - rewrite lookup_insert_ne in Hr by done. done. }
    rewrite (Hkey i p Hp Hfp), (Hkey j q Hq Hfq). done. }
  split; [exact H|].
  apply (fallback_unique_preserved one_fallback_world _ H).
Defined.

(** ** The shift synchronizer *)

Lemma with_shifts_same w : with_shifts (shifts w) w = w.
Proof. by destruct w. Qed.

Lemma with_shifts_twice t t' w :
  with_shifts t (with_shifts t' w) = with_shifts t w.
Proof. reflexivity. Qed.

(** The body of the loop writes the shift table as [sync_row] does. *)
Lemma sync_event_row lookup event w :
  sync_event lookup event w
  = (fst (sync_row lookup event (shifts w)),
     with_shifts (snd (sync_row lookup event (shifts w))) w).
Proof.
  unfold sync_event, sync_row, matched_user, has_uid.
  destruct (lookup !! _) as [user|]; cbn [fst snd];
    [|by rewrite with_shifts_same].
  unfold bind, get, Shift_save, ret, raise. cbn [fst snd].
  destruct (objects_get _ _ _) as [|s|]; cbn [fst snd].
  - by destruct (save_row _ _ _ _).
  - by destruct (save_row _ _ _ _).
  - by rewrite with_shifts_same.
Qed.

Lemma for_each_sync_rows lookup events w :
  for_each events (sync_event lookup) w
  = (fst (sync_rows lookup events (shifts w)),
     with_shifts (snd (sync_rows lookup events (shifts w))) w).
Proof.
  revert w. induction events as [|event events IH]; intros w; cbn [for_each sync_rows].
  - unfold ret. cbn. by rewrite with_shifts_same.
  - unfold bind. rewrite sync_event_row.
    destruct (sync_row lookup event (shifts w)) as [[[]|e] table]; cbn [fst snd].
    + rewrite IH. cbn [shifts with_shifts]. by rewrite with_shifts_twice.
    + done.
Qed.

(** [update_shifts] is one reading of the clock and [sync_table]. *)
Lemma update_shifts_table w :
  update_shifts w
  = let run := sync_table (clock w (ticks w)) (user_lookup w) (get_events w)
                 (shifts w) in
    (fst run, with_shifts (snd run) (with_ticks (S (ticks w)) w)).
Proof.
  unfold update_shifts, bind, get, timezone_now, modify. cbn [fst snd].
  rewrite for_each_sync_rows. reflexivity.
Qed.

(** *** Keys *)

Lemma next_id_bound {A} (table : gmap Z A) k :
  is_Some (table !! k) ->
  k <= map_fold (fun k _ acc => Z.max k acc) 0 table.
Proof.
  revert k.
  apply (map_fold_weak_ind
           (fun r (m : gmap Z A) => forall k, is_Some (m !! k) -> k <= r)).
  - intros k [a Hk]. by rewrite lookup_empty in Hk.
  - intros i x m r Hi IH k Hk.
    destruct (decide (i = k)) as [->|Hne]; [lia|].
    rewrite lookup_insert_ne in Hk by done. specialize (IH k Hk). lia.
Qed.

Lemma next_id_fresh {A} (table : gmap Z A) : table !! next_id table = None.
Proof.
  destruct (table !! next_id table) as [a|] eqn:Hk; [|done].
  pose proof (next_id_bound table (next_id table)) as Hle.
  rewrite Hk in Hle. specialize (Hle (mk_is_Some _ _ eq_refl)).
  unfold next_id in Hle. lia.
Qed.

(** What the three answers of [objects_get] say about the table. *)
Lemma objects_get_spec {A} (with_id : Z -> A -> A) (p : A -> bool)
    (table : gmap Z A) :
  match objects_get with_id p table with
  | DoesNotExist => forall k a, table !! k = Some a -> p a = false
  | Found s =>
      exists k a, s = with_id k a /\ table !! k = Some a /\ p a = true /\
                  forall k' a', table !! k' = Some a' -> p a' = true -> k' = k
  | TooMany =>
      exists k1 k2 a1 a2, k1 <> k2 /\
        table !! k1 = Some a1 /\ table !! k2 = Some a2 /\
        p a1 = true /\ p a2 = true
  end.
Proof.
  unfold objects_get.
  set (l := filter (fun kv : Z * A => p (snd kv) = true) (map_to_list table)).
  assert (Hin : forall k a, (k, a) ∈ l <-> table !! k = Some a /\ p a = true).
  { intros k a. subst l. rewrite list_elem_of_filter, elem_of_map_to_list.
    cbn. tauto. }
  assert (Hnodup : NoDup l).
  { subst l. apply NoDup_filter, NoDup_map_to_list. }
  destruct l as [|[k a] [|[k2 a2] l']].
  - intros k a Hk. destruct (p a) eqn:Hp; [|done].
    exfalso. eapply not_elem_of_nil. apply Hin. eauto.
  - destruct (proj1 (Hin k a) (list_elem_of_here _ _)) as [Hk Hp].
    exists k, a. repeat split; try done.
    intros k' a' Hk' Hp'.
    assert (H : (k', a') ∈ [(k, a)]) by (apply Hin; done).
    apply list_elem_of_singleton in H. congruence.
  - destruct (proj1 (Hin k a) (list_elem_of_here _ _)) as [Hk Hp].
    destruct (proj1 (Hin k2 a2)
                (list_elem_of_further _ _ _ (list_elem_of_here _ _)))
      as [Hk2 Hp2].
    exists k, k2, a, a2. repeat split; try done.
    intros ->. rewrite Hk in Hk2. injection Hk2 as ->.
    apply NoDup_cons in Hnodup as [Hnot _]. apply Hnot, list_elem_of_here.
Qed.

Lemma has_uid_true uid s : has_uid uid s = true <-> Shift.uid s = uid.
Proof. unfold has_uid. apply String.eqb_eq. Qed.

(** One step of the loop on a matched event: it writes the row of the
    event under the one key of its uid, an existing key or a new one; or
    it raises on a uid that has two rows, and writes nothing. *)
Lemma sync_row_matched lookup event user table :
  matched_user lookup event = Some user ->
  match sync_row lookup event table with
  | (Return _, table') =>
      exists k, table' = <[k := row_of k event user]> table /\
                only_at (Event.uid event) k table /\
                (forall s, table !! k = Some s ->
                           Shift.uid s = Event.uid event)
  | (Raise e, table') =>
      e = MultipleObjectsReturned /\ table' = table /\
      exists k1 k2 a1 a2, k1 <> k2 /\
        table !! k1 = Some a1 /\ table !! k2 = Some a2 /\
        Shift.uid a1 = Event.uid event /\ Shift.uid a2 = Event.uid event
  end.
Proof.
  intros Hm. unfold sync_row. rewrite Hm.
  pose proof (objects_get_spec Shift.with_id (has_uid (Event.uid event)) table)
    as Hget.
  destruct (objects_get _ _ _) as [|s|].
  - exists (next_id table). split; [done|]. split.
    + intros k' s Hk' Huid. apply has_uid_true in Huid.
      rewrite (Hget k' s Hk') in Huid. done.
    + intros s Hs. by rewrite next_id_fresh in Hs.
  - destruct Hget as (k & a & -> & Hk & Hp & Huniq).
    apply has_uid_true in Hp. exists k. split; [|split].
    + cbn. unfold row_of. by rewrite Hp.
    + intros k' s Hk' Huid. apply (Huniq k' s Hk'). by apply has_uid_true.
    + intros s Hs. congruence.
  - destruct Hget as (k1 & k2 & a1 & a2 & Hne & H1 & H2 & Hp1 & Hp2).
    apply has_uid_true in Hp1, Hp2.
    split; [done|]. split; [done|]. by exists k1, k2, a1, a2.
Qed.

Lemma sync_row_unmatched lookup event table :
  matched_user lookup event = None ->
  sync_row lookup event table = (Return tt, table).
Proof. intros Hm. unfold sync_row. by rewrite Hm. Qed.

(** *** What a run leaves alone *)

Lemma touches_cons lookup uid event events :
  touches lookup uid (event :: events) <->
  (is_Some (matched_user lookup event) /\ Event.uid event = uid) \/
  touches lookup uid events.
Proof. unfold touches. apply Exists_cons. Qed.

Lemma touches_nil lookup uid : ~ touches lookup uid [].
Proof. unfold touches. intros H. by apply Exists_nil in H. Qed.

(** A step does not change the rows of the uids it is not about. *)
Lemma sync_row_frame lookup event table table' uid :
  sync_row lookup event table = (Return tt, table') ->
  ~ (is_Some (matched_user lookup event) /\ Event.uid event = uid) ->
  forall k s, Shift.uid s = uid ->
              (table' !! k = Some s <-> table !! k = Some s).
Proof.
  intros Hstep Hnot k s Huid.
  destruct (matched_user lookup event) as [user|] eqn:Hm.
  - pose proof (sync_row_matched lookup event user table Hm) as Hspec.
    rewrite Hstep in Hspec. destruct Hspec as (k0 & -> & Honly & Hkey).
    assert (Hne : Event.uid event <> uid) by (intros Heq; apply Hnot; eauto).
    destruct (decide (k0 = k)) as [->|Hk].
    + rewrite lookup_insert_eq. split.
      * intros [= <-]. done.
      * intros Hs. specialize (Hkey s Hs). congruence.
    + by rewrite lookup_insert_ne.
  - rewrite sync_row_unmatched in Hstep by done. by injection Hstep as <-.
Qed.

(** After a step on a matched event the uid of the event has its row,
    the row of the event, under one key. *)
Lemma sync_row_written lookup event user table table' :
  matched_user lookup event = Some user ->
  sync_row lookup event table = (Return tt, table') ->
  exists k, table' !! k = Some (row_of k event user) /\
            only_at (Event.uid event) k table'.
Proof.
  intros Hm Hstep.
  pose proof (sync_row_matched lookup event user table Hm) as Hspec.
  rewrite Hstep in Hspec. destruct Hspec as (k0 & -> & Honly & Hkey).
  exists k0. split; [apply lookup_insert_eq|].
  intros k' s Hk' Huid. destruct (decide (k0 = k')) as [|Hne]; [done|].
  rewrite lookup_insert_ne in Hk' by done. by apply (Honly k' s).
Qed.

(** A uid that has its rows under one key keeps them under that key. *)
Lemma sync_row_keeps_key lookup event table table' uid k :
  sync_row lookup event table = (Return tt, table') ->
  (exists s, table !! k = Some s /\ Shift.uid s = uid) ->
  only_at uid k table ->
  (exists s, table' !! k = Some s /\ Shift.uid s = uid) /\
  only_at uid k table'.
Proof.
  intros Hstep (s & Hs & Huid) Honly.
  destruct (matched_user lookup event) as [user|] eqn:Hm.
  - pose proof (sync_row_matched lookup event user table Hm) as Hspec.
    rewrite Hstep in Hspec. destruct Hspec as (k0 & -> & Honly0 & Hkey).
    destruct (decide (Event.uid event = uid)) as [He|He].
    + assert (k = k0) as -> by (apply (Honly0 k s); congruence).
      split; [exists (row_of k0 event user); by rewrite lookup_insert_eq|].
      intros k' s' Hk' Huid'. destruct (decide (k0 = k')) as [|Hne]; [done|].
      rewrite lookup_insert_ne in Hk' by done. by apply (Honly k' s').
    + assert (k0 <> k).
      { intros ->. specialize (Hkey s Hs). congruence. }
      split; [exists s; by rewrite lookup_insert_ne|].
      intros k' s' Hk' Huid'. destruct (decide (k0 = k')) as [<-|Hne].
      * rewrite lookup_insert_eq in Hk'. injection Hk' as <-. done.
      * rewrite lookup_insert_ne in Hk' by done. by apply (Honly k' s').
  - rewrite sync_row_unmatched in Hstep by done. injection Hstep as <-.
    split; [by exists s | done].
Qed.

(** *** Runs *)

Lemma sync_rows_cons lookup event events table :
  sync_rows lookup (event :: events) table
  = match sync_row lookup event table with
    | (Return _, table') => sync_rows lookup events table'
    | (Raise e, table') => (Raise e, table')
    end.
Proof. reflexivity. Qed.

(** A run that returns is a step that returns and a run that returns. *)
Lemma sync_rows_cons_return lookup event events table final :
  sync_rows lookup (event :: events) table = (Return tt, final) ->
  exists table', sync_row lookup event table = (Return tt, table') /\
                 sync_rows lookup events table' = (Return tt, final).
Proof.
  rewrite sync_rows_cons.
  destruct (sync_row lookup event table) as [[[]|e] table']; [|done].
  intros H. by exists table'.
Qed.

Lemma sync_rows_app lookup events1 events2 table :
  sync_rows lookup (events1 ++ events2) table
  = match sync_rows lookup events1 table with
    | (Return _, table') => sync_rows lookup events2 table'
    | (Raise e, table') => (Raise e, table')
    end.
Proof.
  revert table. induction events1 as [|event events1 IH]; intros table;
    [done|].
  rewrite <- app_comm_cons, !sync_rows_cons.
  destruct (sync_row lookup event table) as [[[]|e] table']; [apply IH|done].
Qed.

(** A run that raises returned up to some event, on which the step
    raised without writing. *)
Lemma sync_rows_raise lookup events table e final :
  sync_rows lookup events table = (Raise e, final) ->
  exists events1 event events2,
    events = (events1 ++ event :: events2)%list /\
    sync_rows lookup events1 table = (Return tt, final) /\
    sync_row lookup event final = (Raise e, final).
Proof.
  revert table. induction events as [|event events IH]; intros table; [done|].
  rewrite sync_rows_cons.
  destruct (sync_row lookup event table) as [[[]|e'] table'] eqn:Hstep.
  - intros Hrun. destruct (IH table' Hrun) as (es1 & ev & es2 & -> & H1 & H2).
    exists (event :: es1), ev, es2. split; [done|]. split; [|done].
    by rewrite sync_rows_cons, Hstep.
  - intros [= -> ->]. exists [], event, events.
    assert (final = table) as ->.
    { destruct (matched_user lookup event) as [user|] eqn:Hm.
      - pose proof (sync_row_matched lookup event user table Hm) as Hspec.
        rewrite Hstep in Hspec. by destruct Hspec as (_ & -> & _).
      - by rewrite sync_row_unmatched in Hstep. }
    done.
Qed.

(** A run does not change the rows of the uids it does not touch. *)
Lemma sync_rows_frame lookup events table final uid :
  sync_rows lookup events table = (Return tt, final) ->
  ~ touches lookup uid events ->
  forall k s, Shift.uid s = uid ->
              (final !! k = Some s <-> table !! k = Some s).
Proof.
  revert table. induction events as [|event events IH]; intros table Hrun Hnot.
  - by injection Hrun as <-.
  - apply sync_rows_cons_return in Hrun as (table' & Hstep & Hrun).
    intros k s Huid.
    rewrite touches_cons in Hnot.
    rewrite (IH table' Hrun) by tauto.
    apply (sync_row_frame lookup event table table' uid); try done. tauto.
Qed.

(** A row of the final table is a row of the initial one, or its uid was
    touched. *)
Lemma sync_rows_origin lookup events table final k s :
  sync_rows lookup events table = (Return tt, final) ->
  final !! k = Some s ->
  touches lookup (Shift.uid s) events \/ table !! k = Some s.
Proof.
  revert table. induction events as [|event events IH]; intros table Hrun Hk.
  - injection Hrun as <-. by right.
  - apply sync_rows_cons_return in Hrun as (table' & Hstep & Hrun).
    destruct (IH table' Hrun Hk) as [Ht|Hk'].
    { left. apply touches_cons. by right. }
    destruct (decide (is_Some (matched_user lookup event)
                      /\ Event.uid event = Shift.uid s)) as [Hev|Hev].
    { left. apply touches_cons. by left. }
    right.
    by apply (sync_row_frame lookup event table table' (Shift.uid s)
                Hstep Hev k s).
Qed.

Lemma sync_rows_keeps_key lookup events table final uid k :
  sync_rows lookup events table = (Return tt, final) ->
  (exists s, table !! k = Some s /\ Shift.uid s = uid) ->
  only_at uid k table ->
  (exists s, final !! k = Some s /\ Shift.uid s = uid) /\ only_at uid k final.
Proof.
  revert table. induction events as [|event events IH];
    intros table Hrun Hrow Honly.
  - by injection Hrun as <-.
  - apply sync_rows_cons_return in Hrun as (table' & Hstep & Hrun).
    destruct (sync_row_keeps_key lookup event table table' uid k
                Hstep Hrow Honly) as [Hrow' Honly'].
    by apply (IH table').
Qed.

(** After a run that returned, the uid of every matched event has its
    rows under one key. *)
Lemma sync_rows_one_key lookup events table final event user :
  sync_rows lookup events table = (Return tt, final) ->
  event ∈ events ->
  matched_user lookup event = Some user ->
  exists k, (exists s, final !! k = Some s /\ Shift.uid s = Event.uid event) /\
            only_at (Event.uid event) k final.
Proof.
  revert table. induction events as [|event0 events IH];
    intros table Hrun Hin Hm; [by apply not_elem_of_nil in Hin|].
  apply sync_rows_cons_return in Hrun as (table' & Hstep & Hrun).
  apply elem_of_cons in Hin as [<-|Hin]; [|by apply (IH table')].
  destruct (sync_row_written lookup event user table table' Hm Hstep)
    as (k & Hk & Honly).
  exists k.
  apply (sync_rows_keeps_key lookup events table' final); try done.
  by exists (row_of k event user).
Qed.

(** The rows of a uid are those of the last matched event that carries
    it. *)
Lemma sync_rows_last lookup events1 event events2 table final user :
  sync_rows lookup (events1 ++ event :: events2) table = (Return tt, final) ->
  matched_user lookup event = Some user ->
  ~ touches lookup (Event.uid event) events2 ->
  forall k s, final !! k = Some s -> Shift.uid s = Event.uid event ->
              s = row_of k event user.
Proof.
  intros Hrun Hm Hnot k s Hk Huid.
  rewrite sync_rows_app in Hrun.
  destruct (sync_rows lookup events1 table) as [[[]|e] table1]; [|done].
  apply sync_rows_cons_return in Hrun as (table2 & Hstep & Hrun).
  destruct (sync_row_written lookup event user table1 table2 Hm Hstep)
    as (k0 & Hk0 & Honly).
  apply (sync_rows_frame lookup events2 table2 final (Event.uid event)
           Hrun Hnot k s Huid) in Hk.
  assert (k = k0) as -> by by apply (Honly k s).
  congruence.
Qed.

(** *** The second run *)

Lemma delete_if_future_uid now s :
  Shift.uid (delete_if_future now s) = Shift.uid s.
Proof. unfold delete_if_future. by destruct (now <? _). Qed.

Lemma delete_if_future_twice now s :
  delete_if_future now (delete_if_future now s) = delete_if_future now s.
Proof.
  unfold delete_if_future. destruct (now <? Shift.start s) eqn:H; cbn;
    by rewrite H.
Qed.

(** The second run starts in the invariant. *)
Lemma resync_inv_start now lookup events table final :
  sync_rows lookup events (mark_future_deleted now table)
  = (Return tt, final) ->
  resync_inv lookup final events (mark_future_deleted now final).
Proof.
  intros Hrun k. unfold mark_future_deleted. rewrite lookup_fmap.
  destruct (final !! k) as [r|] eqn:Hk; cbn; [|done].
  exists (delete_if_future now r). split; [done|].
  split; [apply delete_if_future_uid|].
  intros Hnot.
  destruct (sync_rows_origin lookup events _ final k r Hrun Hk) as [Ht|Hk0];
    [done|].
  unfold mark_future_deleted in Hk0. rewrite lookup_fmap in Hk0.
  destruct (table !! k) as [s|]; [|done]. injection Hk0 as <-.
  apply delete_if_future_twice.
Qed.

(** From the invariant the rest of the second run returns and ends in
    the table the first run ended in. *)
Lemma resync lookup start final done_ rest table :
  sync_rows lookup (done_ ++ rest) start = (Return tt, final) ->
  resync_inv lookup final rest table ->
  sync_rows lookup rest table = (Return tt, final).
Proof.
  revert done_ table.
  induction rest as [|event rest IH]; intros done_ table Hrun Hinv.
  - cbn. f_equal. apply map_eq. intros k. specialize (Hinv k).
    destruct (final !! k) as [r|]; [|done].
    destruct Hinv as (a & -> & _ & Heq). f_equal. apply Heq, touches_nil.
  - assert (Hrun' : sync_rows lookup ((done_ ++ [event]) ++ rest) start
                    = (Return tt, final)).
    { by rewrite <- app_assoc. }
    rewrite sync_rows_cons.
    destruct (matched_user lookup event) as [user|] eqn:Hm.
    + (* the event finds the one row of its uid *)
      destruct (sync_rows_one_key lookup _ start final event user Hrun)
        as (k & (r & Hr & Hruid) & Honly); [|done|].
      { apply elem_of_app. right. apply list_elem_of_here. }
      assert (Hrow : exists a, table !! k = Some a
                               /\ Shift.uid a = Event.uid event).
      { specialize (Hinv k). rewrite Hr in Hinv.
        destruct Hinv as (a & Ha & Hau & _). exists a. split; congruence. }
      assert (Honly' : only_at (Event.uid event) k table).
      { intros k' a' Hk' Hu'. specialize (Hinv k').
        destruct (final !! k') as [r'|] eqn:Hr'; [|congruence].
        destruct Hinv as (a & Ha & Hau & _).
        apply (Honly k' r' Hr'). congruence. }
      pose proof (sync_row_matched lookup event user table Hm) as Hspec.
      destruct (sync_row lookup event table) as [[[]|e] table'].
      * destruct Hspec as (k0 & -> & Honly0 & _).
        destruct Hrow as (a & Ha & Hau).
        assert (k = k0) as <- by by apply (Honly0 k a).
        apply (IH (done_ ++ [event])%list); [done|].
        intros k'. destruct (decide (k = k')) as [<-|Hne].
        -- rewrite Hr, lookup_insert_eq.
           exists (row_of k event user). split; [done|].
           split; [by rewrite Hruid|].
           intros Hnot. symmetry.
           apply (sync_rows_last lookup done_ event rest start final user);
             try done.
           by rewrite <- Hruid.
        -- rewrite lookup_insert_ne by done. specialize (Hinv k').
           destruct (final !! k') as [r'|] eqn:Hr'; [|done].
           destruct Hinv as (a' & Ha' & Hau' & Heq).
           exists a'. split; [done|]. split; [done|].
           intros Hnot. apply Heq. rewrite touches_cons.
           intros [[_ Hu]|Ht]; [|done].
           apply Hne. symmetry. by apply (Honly k' r').
      * destruct Hspec as (_ & _ & k1 & k2 & a1 & a2 & Hne & H1 & H2 & U1 & U2).
        exfalso. apply Hne.
        rewrite (Honly' k1 a1 H1 U1), (Honly' k2 a2 H2 U2). done.
    + rewrite sync_row_unmatched by done.
      apply (IH (done_ ++ [event])%list); [done|].
      intros k. specialize (Hinv k).
      destruct (final !! k) as [r|]; [|done].
      destruct Hinv as (a & Ha & Hau & Heq).
      exists a. split; [done|]. split; [done|].
      intros Hnot. apply Heq. rewrite touches_cons.
      intros [[[u Hu] _]|Ht]; [congruence|done].
Qed.

(** Running the synchronizer on the table it left, at the same time and
    with the same feed and users, ends in that table with the same
    outcome. *)
Lemma sync_table_idempotent now lookup events table :
  sync_table now lookup events (snd (sync_table now lookup events table))
  = sync_table now lookup events table.
Proof.
  unfold sync_table.
  destruct (sync_rows lookup events (mark_future_deleted now table))
    as [[[]|e] final] eqn:Hrun; cbn [snd].
  - apply (resync lookup (mark_future_deleted now table) final []); [done|].
    by apply (resync_inv_start now lookup events table).
  - apply sync_rows_raise in Hrun
      as (events1 & event & events2 & -> & Hrun1 & Hstep).
    rewrite sync_rows_app.
    rewrite (resync lookup (mark_future_deleted now table) final [] events1
               (mark_future_deleted now final)).
    + by rewrite sync_rows_cons, Hstep.
    + by rewrite app_nil_l.
    + by apply (resync_inv_start now lookup events1 table).
Qed.

(** *** No duplicates *)

Lemma mark_future_deleted_uid_unique now table :
  uid_unique table -> uid_unique (mark_future_deleted now table).
Proof.
  intros Huniq i j a b Ha Hb Huid. unfold mark_future_deleted in Ha, Hb.
  rewrite lookup_fmap in Ha, Hb.
  destruct (table !! i) as [a0|] eqn:Hi; [|done].
  destruct (table !! j) as [b0|] eqn:Hj; [|done].
  injection Ha as <-. injection Hb as <-.
  rewrite !delete_if_future_uid in Huid. by apply (Huniq i j a0 b0).
Qed.

Lemma sync_row_uid_unique lookup event table :
  uid_unique table -> uid_unique (snd (sync_row lookup event table)).
Proof.
  intros Huniq.
  destruct (matched_user lookup event) as [user|] eqn:Hm;
    [|by rewrite sync_row_unmatched].
  pose proof (sync_row_matched lookup event user table Hm) as Hspec.
  destruct (sync_row lookup event table) as [[[]|e] table']; cbn [snd].
  - destruct Hspec as (k & -> & Honly & _).
    intros i j a b Ha Hb Huid.
    destruct (decide (k = i)) as [<-|Hi]; destruct (decide (k = j)) as [<-|Hj];
      try done.
    + rewrite lookup_insert_eq in Ha. rewrite lookup_insert_ne in Hb by done.
      injection Ha as <-. symmetry. apply (Honly j b Hb). by rewrite <- Huid.
    + rewrite lookup_insert_eq in Hb. rewrite lookup_insert_ne in Ha by done.
      injection Hb as <-. apply (Honly i a Ha). by rewrite Huid.
    + rewrite lookup_insert_ne in Ha, Hb by done. by apply (Huniq i j a b).
  - by destruct Hspec as (_ & -> & _).
Qed.

Lemma sync_rows_uid_unique lookup events table :
  uid_unique table -> uid_unique (snd (sync_rows lookup events table)).
Proof.
  revert table. induction events as [|event events IH]; intros table Huniq;
    [done|].
  rewrite sync_rows_cons.
  pose proof (sync_row_uid_unique lookup event table Huniq) as Hstep.
  destruct (sync_row lookup event table) as [[[]|e] table']; [|done].
  by apply IH.
Qed.

(** C8.  A second run of the synchronizer, started on the shift table the
    first run left, at the same reading of the clock and with the feed and
    the users unchanged, leaves that table as it is and ends as the first
    run ended: the shifts in force are the same, no row is added, no
    [deleted] flag differs.  And a run gives no uid a second row. *)
Theorem update_shifts_idempotent (w w2 : World)
    (Hshifts : shifts w2 = shifts (snd (update_shifts w)))
    (Hfeed : get_events w2 = get_events w)
    (Husers : users w2 = users w)
    (Hnow : clock w2 (ticks w2) = clock w (ticks w)) :
  shifts (snd (update_shifts w2)) = shifts (snd (update_shifts w)) /\
  fst (update_shifts w2) = fst (update_shifts w) /\
  active_shifts (shifts (snd (update_shifts w2)))
  = active_shifts (shifts (snd (update_shifts w))) /\
  (forall k, Shift.deleted <$> shifts (snd (update_shifts w2)) !! k
             = Shift.deleted <$> shifts (snd (update_shifts w)) !! k) /\
  (uid_unique (shifts w) -> uid_unique (shifts (snd (update_shifts w)))).
Proof.
  assert (Hlookup : user_lookup w2 = user_lookup w).
  { unfold user_lookup. by rewrite Husers. }
  assert (Htable : shifts (snd (update_shifts w2))
                   = shifts (snd (update_shifts w))
                   /\ fst (update_shifts w2) = fst (update_shifts w)).
  { rewrite (update_shifts_table w2). cbn zeta. cbn [fst snd].
    cbn [shifts with_shifts].
    rewrite Hfeed, Hlookup, Hnow, Hshifts.
    rewrite (update_shifts_table w). cbn zeta. cbn [fst snd].
    cbn [shifts with_shifts].
    by rewrite sync_table_idempotent. }
  destruct Htable as [Htable Hout]. rewrite Htable.
  split; [done|]. split; [done|]. split; [done|]. split; [done|].
  intros Huniq. rewrite update_shifts_table. cbn zeta. cbn [snd].
  cbn [shifts with_shifts]. unfold sync_table.
  by apply sync_rows_uid_unique, mark_future_deleted_uid_unique.
Qed.

Lemma update_shifts_idempotent_witness :
  let once := snd (update_shifts roster_world) in
  shifts once = shifts once /\
  get_events once = get_events roster_world /\
  users once = users roster_world /\
  clock once (ticks once) = clock roster_world (ticks roster_world) /\
  shifts (snd (update_shifts once)) = shifts once.
Proof.
  intros once.
  split; [reflexivity|]. split; [reflexivity|]. split; [reflexivity|].
  split; [reflexivity|].
  apply (update_shifts_idempotent roster_world once); reflexivity.
Defined.

(* ===================================================================== *)
(** * Part III.  Further properties of the module                         *)
(* ===================================================================== *)

(** ** Debounce and health summary *)

Lemma any_succeeded_take_le (history : list StatusCheckResult.t) (n m : nat) :
  (n <= m)%nat ->
  any_succeeded (take n history) = true ->
  any_succeeded (take m history) = true.
Proof.
  intros Hle Hn. apply any_succeeded_true in Hn as (r & Hin & Hr).
  apply any_succeeded_true. exists r. split; [|done].
  apply elem_of_take in Hin as (i & Hi & Hlt).
  apply elem_of_take. exists i. split; [done | lia].
Qed.

(** X1.  A larger debounce never turns a passing check into a failing
    one, and with debounce 0 the most recent result alone decides. *)
Theorem debounce_monotone (history : list StatusCheckResult.t) (d d' : Z)
    (Hd : 0 <= d) (Hle : d <= d') :
  (calculate_debounced_passing history d = true ->
   calculate_debounced_passing history d' = true) /\
  (forall r rest,
     history = r :: rest ->
     calculate_debounced_passing history 0 = StatusCheckResult.succeeded r).
Proof.
  split.
  - unfold calculate_debounced_passing. destruct history as [|r rest]; [done|].
    rewrite !debounce_window by lia.
    apply any_succeeded_take_le. lia.
  - intros r rest ->. unfold calculate_debounced_passing.
    rewrite debounce_window by lia. cbn.
    by destruct (StatusCheckResult.succeeded r).
Qed.

Lemma debounce_monotone_witness :
  0 <= 2 /\ 2 <= 5 /\
  let history := [result_at 3 false; result_at 2 false; result_at 1 true] in
  calculate_debounced_passing history 5 = true.
Proof.
  split; [lia|]. split; [lia|]. intros history.
  destruct (debounce_monotone history 2 5 ltac:(lia) ltac:(lia)) as [H _].
  apply H. reflexivity.
Defined.

Lemma join_snoc sep (l : list string) (x : string) :
  l <> [] -> join sep (l ++ [x]) = join sep l +:+ sep +:+ x.
Proof.
  induction l as [|a l IH]; [done|]. intros _.
  destruct l as [|b l]; [reflexivity|].
  - change (join sep ((a :: b :: l) ++ [x]))
      with (a +:+ sep +:+ join sep ((b :: l) ++ [x])).
    rewrite IH by done.
    change (join sep (a :: b :: l)) with (a +:+ sep +:+ join sep (b :: l)).
    by rewrite !append_assoc.
Qed.

(** X2.  The health summary lists the results oldest first: it is empty
    for no result, and a result more recent than the others adds its
    value, [1] or [-1], at the end, after a comma when there are others. *)
Theorem serialize_recent_results_newest (r : StatusCheckResult.t)
    (older : list StatusCheckResult.t) :
  serialize_recent_results [] = EmptyString /\
  serialize_recent_results [r] = result_to_value r /\
  (older <> [] ->
   serialize_recent_results (r :: older)
   = serialize_recent_results older +:+ "," +:+ result_to_value r).
Proof.
  split; [done|]. split; [done|]. intros Hne.
  unfold serialize_recent_results. destruct older as [|r' older]; [done|].
  cbn [map rev]. apply join_snoc.
  intros Hnil. apply (f_equal length) in Hnil.
  rewrite length_app in Hnil. cbn in Hnil. lia.
Qed.

Lemma serialize_recent_results_newest_witness :
  [result_at 1 true] <> [] /\
  serialize_recent_results [result_at 2 false; result_at 1 true] = "1,-1".
Proof.
  split; [discriminate|].
  destruct (serialize_recent_results_newest (result_at 2 false)
              [result_at 1 true]) as (_ & _ & H).
  rewrite H by discriminate. reflexivity.
Defined.

(** ** The reporting attributes of a result *)

(** X3.  [took] is the part of the duration below one second, in
    milliseconds: it is missing exactly without completion time, never
    reaches 1000, does not change when whole seconds are added to the
    duration, and is the duration when that is under a second. *)
Theorem took_below_one_second (r : StatusCheckResult.t) :
  (took r = None <-> StatusCheckResult.time_complete r = None) /\
  (forall t, took r = Some t -> 0 <= t <= 999) /\
  (forall time_complete seconds,
     StatusCheckResult.time_complete r = Some time_complete ->
     took (StatusCheckResult.with_time_complete
             (Some (time_complete + seconds * 1000000)) r) = took r) /\
  (forall time_complete,
     StatusCheckResult.time_complete r = Some time_complete ->
     0 <= time_complete - StatusCheckResult.time r < 1000000 ->
     took r = Some ((time_complete - StatusCheckResult.time r) / 1000)).
Proof.
  unfold took. split; [|split; [|split]].
  - destruct (StatusCheckResult.time_complete r); split; done.
  - intros t Ht. destruct (StatusCheckResult.time_complete r) as [tc|]; [|done].
    injection Ht as <-.
    pose proof (Z.mod_pos_bound (tc - StatusCheckResult.time r) 1000000
                  ltac:(lia)) as Hm.
    split; [apply Z.div_pos; lia|].
    assert (((tc - StatusCheckResult.time r) mod 1000000) / 1000 < 1000);
      [|lia].
    apply Z.div_lt_upper_bound; lia.
  - intros tc seconds ->. cbn. do 2 f_equal.
    replace (tc + seconds * 1000000 - StatusCheckResult.time r)
      with (tc - StatusCheckResult.time r + seconds * 1000000) by lia.
    apply Z_mod_plus_full.
  - intros tc -> Hrange. by rewrite Z.mod_small.
Qed.

Lemma length_append (a b : string) :
  String.length (a +:+ b) = (String.length a + String.length b)%nat.
Proof.
  induction a as [|x a IH]; [done|]. rewrite append_cons. cbn. by rewrite IH.
Qed.

Lemma length_substring_prefix (n : nat) (s : string) :
  (n <= String.length s)%nat -> String.length (substring 0 n s) = n.
Proof.
  revert s. induction n as [|n IH]; intros s Hn.
  - by destruct s.
  - destruct s as [|c s]; cbn in *; [lia|]. rewrite IH; lia.
Qed.

Lemma format_ellipsis s :
  py_format "%s..." (Single (VStr s)) = Return (s +:+ "...").
Proof. format_lit. reflexivity. Qed.

(** X4.  [short_error] is the error when it has at most 30 characters,
    and otherwise its first 27 characters followed by three dots, 30
    characters in all; without an error it raises [TypeError]. *)
Theorem short_error_length (r : StatusCheckResult.t) :
  match StatusCheckResult.error r with
  | None => exists msg, short_error r = Raise (TypeError msg)
  | Some error =>
      exists s, short_error r = Return s /\
        (String.length s <= 30)%nat /\
        ((String.length error <= 30)%nat -> s = error) /\
        ((30 < String.length error)%nat ->
         s = substring 0 27 error +:+ "..." /\ String.length s = 30%nat)
  end.
Proof.
  unfold short_error. destruct (StatusCheckResult.error r) as [error|];
    [|by eexists].
  destruct (Nat.ltb_spec 30 (String.length error)) as [Hlong|Hshort].
  - change (30 - 3)%nat with 27%nat. rewrite format_ellipsis.
    eexists. split; [reflexivity|].
    assert (Hlen : String.length (substring 0 27 error +:+ "...") = 30%nat).
    { rewrite length_append, length_substring_prefix by lia. done. }
    split; [lia|]. split; [lia|]. done.
  - exists error. split; [done|]. split; [done|]. split; [done|lia].
Qed.

Lemma took_below_one_second_witness :
  StatusCheckResult.time_complete (result_at 1 true) = Some 11 /\
  took (StatusCheckResult.with_time_complete (Some (11 + 3 * 1000000))
          (result_at 1 true)) = Some 0.
Proof.
  split; [reflexivity|].
  destruct (took_below_one_second (result_at 1 true)) as (_ & _ & H & _).
  rewrite (H 11 3 eq_refl). reflexivity.
Defined.

(** ** The recent results *)

#[global] Instance no_earlier_total : Total no_earlier.
Proof.
  intros x y. unfold no_earlier, completes_before.
  destruct (StatusCheckResult.time_complete x) as [a|],
           (StatusCheckResult.time_complete y) as [b|]; auto.
  destruct (Z.leb_spec a b), (Z.leb_spec b a); auto; lia.
Qed.

#[global] Instance no_earlier_transitive : Transitive no_earlier.
Proof.
  intros x y z. unfold no_earlier, completes_before.
  destruct (StatusCheckResult.time_complete x) as [a|],
           (StatusCheckResult.time_complete y) as [b|],
           (StatusCheckResult.time_complete z) as [c|]; try done.
  intros H1 H2. apply Z.leb_le in H1, H2. apply Z.leb_le. lia.
Qed.

(** The results of a check, as rows of the table. *)
Lemma elem_of_rows {A} (p : A -> bool) (table : gmap Z A) (a : A) :
  a ∈ rows p table <-> p a = true /\ exists k, table !! k = Some a.
Proof.
  unfold rows. rewrite list_elem_of_filter, list_elem_of_fmap. split.
  - intros [Hp ([k a'] & -> & Hin)]. apply elem_of_map_to_list in Hin. eauto.
  - intros [Hp [k Hk]]. split; [done|]. exists (k, a). split; [done|].
    by apply elem_of_map_to_list.
Qed.

Lemma elem_of_completed_history self w r :
  r ∈ completed_history self w <->
  StatusCheckResult.check r = StatusCheck.id self /\
  exists k, results w !! k = Some r.
Proof.
  unfold completed_history. rewrite merge_sort_Permutation, elem_of_rows.
  by rewrite Z.eqb_eq.
Qed.

Lemma completed_history_sorted self w :
  StronglySorted no_earlier (completed_history self w).
Proof. apply StronglySorted_merge_sort; apply _. Qed.

(** X5.  [recent_results] holds at most ten results, all of them results
    of the check, the later completed first; and a result of the check
    that is left out completed no later than any that is kept. *)
Theorem recent_results_latest (self : StatusCheck.t) (w : World) :
  let recent := recent_results self w in
  (length recent <= 10)%nat /\
  (forall r, r ∈ recent ->
     StatusCheckResult.check r = StatusCheck.id self /\
     exists k, results w !! k = Some r) /\
  StronglySorted no_earlier recent /\
  (forall k r r',
     results w !! k = Some r' ->
     StatusCheckResult.check r' = StatusCheck.id self ->
     r ∈ recent -> r' ∈ recent \/ no_earlier r r').
Proof.
  intros recent. subst recent. unfold recent_results.
  pose proof (completed_history_sorted self w) as Hsorted.
  rewrite <- (take_drop 10 (completed_history self w)) in Hsorted.
  split; [rewrite length_take; lia|]. split; [|split].
  - intros r Hr. apply elem_of_completed_history.
    apply elem_of_take in Hr as (i & Hi & _). by eapply list_elem_of_lookup_2.
  - by apply StronglySorted_app_1_l in Hsorted.
  - intros k r r' Hk Hcheck Hr.
    assert (Hin : r' ∈ completed_history self w).
    { apply elem_of_completed_history. eauto. }
    rewrite <- (take_drop 10 (completed_history self w)) in Hin.
    apply elem_of_app in Hin as [Hin|Hin]; [by left|right].
    by apply (StronglySorted_app_1_elem_of _ _ _ _ _ Hsorted).
Qed.

(** X6.  [last_result] answers nothing exactly when the check has no
    result; otherwise it answers a result of the check that completed no
    earlier than any other result of the check. *)
Theorem last_result_latest (self : StatusCheck.t) (w : World) :
  (last_result self w = None <->
   forall k r, results w !! k = Some r ->
               StatusCheckResult.check r <> StatusCheck.id self) /\
  (forall r, last_result self w = Some r ->
     StatusCheckResult.check r = StatusCheck.id self /\
     (exists k, results w !! k = Some r) /\
     forall k r', results w !! k = Some r' ->
                  StatusCheckResult.check r' = StatusCheck.id self ->
                  no_earlier r r').
Proof.
  unfold last_result, recent_results.
  pose proof (completed_history_sorted self w) as Hsorted.
  pose proof (elem_of_completed_history self w) as Hin.
  destruct (completed_history self w) as [|r0 rest]; cbn.
  - split; [|done]. split; [|done]. intros _ k r Hk Hcheck.
    eapply not_elem_of_nil. apply Hin. eauto.
  - split.
    + split; [done|]. intros Hnone. exfalso.
      destruct (proj1 (Hin r0) (list_elem_of_here _ _)) as [Hc [k Hk]].
      by apply (Hnone k r0).
    + intros r [= <-].
      destruct (proj1 (Hin r0) (list_elem_of_here _ _)) as [Hc Hk].
      split; [done|]. split; [done|]. intros k r' Hk' Hc'.
      assert (Hr' : r' ∈ r0 :: rest) by (apply Hin; eauto).
      apply elem_of_cons in Hr' as [->|Hr'].
      * destruct (total no_earlier r0 r0); done.
      * apply StronglySorted_inv in Hsorted as [_ Hall].
        by apply (proj1 (Forall_forall _ _) Hall).
Qed.

(** ** A run counts its own result *)

(** A result stored under a new key with a completion time later than
    those of the other results of the check is the first recent result. *)
Lemma recent_results_head_new self w w' k r finish :
  results w' = <[k := r]> (results w) ->
  results w !! k = None ->
  StatusCheckResult.check r = StatusCheck.id self ->
  StatusCheckResult.time_complete r = Some finish ->
  completed_before self w finish ->
  head (recent_results self w') = Some r.
Proof.
  intros Hres Hfresh Hcheck Htc Hbefore. unfold recent_results.
  pose proof (completed_history_sorted self w') as Hsorted.
  pose proof (elem_of_completed_history self w') as Hin.
  assert (Hnew : r ∈ completed_history self w').
  { apply Hin. split; [done|]. exists k. by rewrite Hres, lookup_insert_eq. }
  destruct (completed_history self w') as [|x rest];
    [by apply not_elem_of_nil in Hnew|].
  cbn. f_equal.
  apply elem_of_cons in Hnew as [->|Hnew]; [done|].
  apply StronglySorted_inv in Hsorted as [_ Hall].
  pose proof (proj1 (Forall_forall _ _) Hall r Hnew) as Hxr.
  destruct (proj1 (Hin x) (list_elem_of_here _ _)) as [Hxc [kx Hkx]].
  rewrite Hres in Hkx.
  destruct (decide (k = kx)) as [<-|Hne].
  { rewrite lookup_insert_eq in Hkx. congruence. }
  rewrite lookup_insert_ne in Hkx by done.
  specialize (Hbefore kx x Hkx Hxc).
  unfold no_earlier in Hxr. rewrite Htc in Hxr. unfold completes_before in Hxr.
  destruct (StatusCheckResult.time_complete x) as [t|]; [|done].
  apply Z.leb_le in Hxr. lia.
Qed.

(** With debounce 0, the check is stored with the status of the result
    the run has just written. *)
Lemma after_record_status self w result :
  StatusCheck.debounce self = 0 ->
  StatusCheckResult.check result = StatusCheck.id self ->
  StatusCheckResult.time_complete result = Some (clock w (S (ticks w))) ->
  completed_before self w (clock w (S (ticks w))) ->
  let self' := fst (after_record self w result) in
  StatusCheck.calculated_status self'
  = calculated_status_of (StatusCheckResult.succeeded result) /\
  StatusCheck.last_run self' = Some (clock w (S (ticks w))) /\
  status_checks (snd (after_record self w result)) !! StatusCheck.id self
  = Some self'.
Proof.
  intros Hd Hcheck Htc Hbefore self'. subst self'. unfold after_record.
  rewrite StatusCheck_save_eq. cbn [fst snd]. cbn zeta.
  set (self1 := StatusCheck.with_last_run _ self).
  set (w2 := with_results _ _).
  set (new := StatusCheckResult.with_id (next_id (results w)) result).
  assert (Hhead : head (recent_results self1 w2) = Some new).
  { apply (recent_results_head_new self1 w w2 (next_id (results w)) new
             (clock w (S (ticks w)))); try done.
    apply next_id_fresh. }
  split; [|split].
  - cbn. change (StatusCheck.debounce self1) with (StatusCheck.debounce self).
    rewrite Hd. destruct (recent_results self1 w2) as [|r0 rest]; [done|].
    injection Hhead as ->.
    unfold calculate_debounced_passing. rewrite debounce_window by lia.
    cbn. by destruct (StatusCheckResult.succeeded result).
  - done.
  - cbn. by rewrite lookup_insert_eq.
Qed.

(** X7.  The result a run writes is part of its own debounce window: with
    debounce 0 and a clock that has passed the earlier completions, a run
    that meets "not found" leaves the check stored as failing, and a run
    that meets any other backend error leaves it stored as passing,
    whatever its status was. *)
Theorem jenkins_run_status (self : StatusCheck.t) (w : World)
    (Hdebounce : StatusCheck.debounce self = 0)
    (Hclock : completed_before self w (clock w (S (ticks w)))) :
  let stored := status_checks (snd (snd (JenkinsStatusCheck_run (self, w))))
                  !! StatusCheck.id self in
  (get_job_status w (StatusCheck.name self) = RaisesHTTPError ->
   exists self', stored = Some self' /\
     StatusCheck.calculated_status self' = Service.CALCULATED_FAILING_STATUS /\
     StatusCheck.last_run self' = Some (clock w (S (ticks w)))) /\
  (get_job_status w (StatusCheck.name self) = RaisesOther ->
   exists self', stored = Some self' /\
     StatusCheck.calculated_status self' = Service.CALCULATED_PASSING_STATUS /\
     StatusCheck.last_run self' = Some (clock w (S (ticks w)))).
Proof.
  intros stored. subst stored. split; intros Hjob.
  - rewrite (jenkins_run_not_found self w Hjob). cbn [snd].
    destruct (after_record_status self w
                (jenkins_result self w false
                   ("Job " +:+ StatusCheck.name self +:+ " not found on Jenkins"))
                Hdebounce eq_refl eq_refl Hclock) as (Hs & Hl & Hrow).
    eexists. split; [exact Hrow|]. done.
  - rewrite (jenkins_run_other_error self w Hjob). cbn [snd].
    destruct (after_record_status self w
                (jenkins_result self w true "Error fetching from Jenkins")
                Hdebounce eq_refl eq_refl Hclock) as (Hs & Hl & Hrow).
    eexists. split; [exact Hrow|]. done.
Qed.

Lemma jenkins_run_status_witness :
  let w := with_get_job_status (fun _ => RaisesOther) one_failure_world in
  StatusCheck.debounce deploy_check = 0 /\
  completed_before deploy_check w (clock w (S (ticks w))) /\
  exists self',
    status_checks (snd (snd (JenkinsStatusCheck_run (deploy_check, w))))
      !! StatusCheck.id deploy_check = Some self' /\
    StatusCheck.calculated_status self' = Service.CALCULATED_PASSING_STATUS /\
    StatusCheck.last_run self' = Some 1001.
Proof.
  intros w.
  assert (Hclock : completed_before deploy_check w (clock w (S (ticks w)))).
  { intros k r Hk _. cbn in Hk.
    apply lookup_singleton_Some in Hk as [_ <-]. cbn. lia. }
  split; [reflexivity|]. split; [exact Hclock|].
  apply (proj2 (jenkins_run_status deploy_check w eq_refl Hclock)).
  reflexivity.
Defined.

(** ** The cycle of a service *)

(** [alert_send] in one piece. *)
Lemma alert_send_eq self w snap :
  Service.snapshot self = Some snap ->
  alert_send (self, w) =
  let w1 := with_services (<[Service.id self := self]> (services w)) w in
  let saved := save_row ServiceStatusSnapshot.id ServiceStatusSnapshot.with_id
                 (ServiceStatusSnapshot.with_did_send_alert true snap)
                 (snapshots w1) in
  let self' := Service.with_snapshot (Some (fst saved)) self in
  let w2 := with_snapshots (snd saved) w1 in
  match get_duty_officers None w2 with
  | (Return duty_officers, w3) =>
      (Return tt,
       (self', with_sent (sent w3 ++ [(self', duty_officers)])%list w3))
  | (Raise e, w3) => (Raise e, (self', w3))
  end.
Proof.
  intros Hsnap.
  unfold alert_send, bind, get_self, in_world, set_self, Service_save, modify,
    ServiceStatusSnapshot_save, send_alert.
  cbn [fst snd]. rewrite Hsnap. cbn [fst snd].
  destruct (save_row _ _ _ _) as [snap' table]. cbn [fst snd].
  by destruct (get_duty_officers None _) as [[d|e] w3].
Qed.

(** What [alert] never touches: the tables of checks, results, shifts,
    profiles and users, and the columns of the service other than
    [last_alert_sent]. *)
Lemma alert_send_tables s w :
  let w' := snd (snd (alert_send (s, w))) in
  status_checks w' = status_checks w /\ results w' = results w /\
  shifts w' = shifts w /\ profiles w' = profiles w /\ users w' = users w.
Proof.
  destruct (Service.snapshot s) as [snap|] eqn:Hsnap.
  - rewrite (alert_send_eq s w snap Hsnap). cbn zeta.
    match goal with |- context [get_duty_officers None ?w2] =>
      destruct (get_duty_officers_None w2) as (o & -> & _) end.
    by destruct o.
  - unfold alert_send, bind, get_self, in_world, Service_save, modify, raise.
    cbn [fst snd]. by rewrite Hsnap.
Qed.

Lemma alert_tables s w :
  let w' := snd (snd (alert (s, w))) in
  status_checks w' = status_checks w /\ results w' = results w /\
  shifts w' = shifts w /\ profiles w' = profiles w /\ users w' = users w.
Proof.
  unfold alert, bind, get_self, in_world, set_self, timezone_now.
  cbn [fst snd].
  destruct (Service.alerts_enabled s); cbn [negb]; [|done].
  destruct (String.eqb _ Service.PASSING_STATUS); cbn [negb fst snd].
  - apply alert_send_tables.
  - rewrite throttled_eq.
    destruct (cooldown_minutes _) as [m|].
    + rewrite sent_within_eq.
      destruct (Service.last_alert_sent s) as [last|] eqn:Hlast.
      * destruct (_ <? last); [done|]. cbn [fst snd].
        match goal with |- context [alert_send (?a, ?b)] =>
          pose proof (alert_send_tables a b) as H end.
        exact H.
      * cbn [fst snd].
        match goal with |- context [alert_send (?a, ?b)] =>
          pose proof (alert_send_tables a b) as H end.
        exact H.
    + cbn [fst snd].
      match goal with |- context [alert_send (?a, ?b)] =>
        pose proof (alert_send_tables a b) as H end.
      exact H.
Qed.

(** [update_status] up to the alert step. *)
Lemma update_status_eq self w :
  update_status (self, w) =
  let failing := all_failing_checks self w in
  let active := Z.of_nat (length (active_status_checks self w)) in
  let failed := Z.of_nat (length failing) in
  let status := most_severe failing in
  let key := next_id (snapshots w) in
  let snap := ServiceStatusSnapshot.mk (Some key) (Service.id self)
                (clock w (ticks w)) active (active - failed) failed status
                false in
  let self' := Service.with_snapshot (Some snap)
                 (Service.with_overall_status status
                    (Service.with_old_overall_status
                       (Service.overall_status self) self)) in
  let w' := with_services (<[Service.id self := self']> (services w))
              (with_snapshots (<[key := snap]> (snapshots w))
                 (with_ticks (S (ticks w)) w)) in
  if negb (String.eqb status Service.PASSING_STATUS
           && String.eqb (Service.overall_status self) Service.PASSING_STATUS)
  then alert (self', w')
  else (Return tt, (self', w')).
Proof.
  unfold update_status, bind, get_self, get_world, in_world, set_self,
    timezone_now, ServiceStatusSnapshot_save, Service_save, modify, save_row.
  cbn [fst snd ServiceStatusSnapshot.id ServiceStatusSnapshot.with_id
       Service.overall_status Service.with_overall_status
       Service.old_overall_status Service.with_old_overall_status
       Service.with_snapshot Service.id].
  cbn zeta. by destruct (negb _).
Qed.

Lemma with_ticks_same w : with_ticks (ticks w) w = w.
Proof. by destruct w. Qed.

(** [alert] either stops, having at most read the clock, or goes on to
    [alert_send] with a new [last_alert_sent]. *)
Lemma alert_cases s w :
  (exists n, alert (s, w) = (Return tt, (s, with_ticks n w))) \/
  (exists v n, alert (s, w)
               = alert_send (Service.with_last_alert_sent v s, with_ticks n w)).
Proof.
  unfold alert, bind, get_self, in_world, set_self, timezone_now.
  cbn [fst snd].
  destruct (Service.alerts_enabled s); cbn [negb];
    [|left; exists (ticks w); by rewrite with_ticks_same].
  destruct (String.eqb _ Service.PASSING_STATUS); cbn [negb fst snd].
  - right. exists None, (ticks w). by rewrite with_ticks_same.
  - rewrite throttled_eq.
    destruct (cooldown_minutes _) as [m|].
    + rewrite sent_within_eq.
      destruct (Service.last_alert_sent s) as [last|] eqn:Hlast.
      * destruct (_ <? last); [left; by eexists|]. cbn [fst snd].
        right. by eexists _, _.
      * cbn [fst snd]. right. by eexists _, _.
    + cbn [fst snd]. right. by eexists _, _.
Qed.

Lemma with_did_send_alert_same (snap : ServiceStatusSnapshot.t) :
  ServiceStatusSnapshot.with_did_send_alert
    (ServiceStatusSnapshot.did_send_alert snap) snap = snap.
Proof. by destruct snap. Qed.

(** The snapshot of the cycle after [alert]: as it was, or marked; and
    the row stored under its key is the snapshot the object carries. *)
Lemma alert_snapshot s w snap k :
  Service.snapshot s = Some snap ->
  ServiceStatusSnapshot.id snap = Some k ->
  snapshots w !! k = Some snap ->
  exists b,
    Service.snapshot (fst (snd (alert (s, w))))
    = Some (ServiceStatusSnapshot.with_did_send_alert b snap) /\
    snapshots (snd (snd (alert (s, w)))) !! k
    = Some (ServiceStatusSnapshot.with_did_send_alert b snap).
Proof.
  intros Hsnap Hid Hrow.
  destruct (alert_cases s w) as [[n ->]|(v & n & ->)].
  - exists (ServiceStatusSnapshot.did_send_alert snap).
    rewrite with_did_send_alert_same. done.
  - exists true.
    rewrite (alert_send_eq _ _ snap) by done. cbn zeta.
    unfold save_row. cbn [ServiceStatusSnapshot.id
      ServiceStatusSnapshot.with_did_send_alert]. rewrite Hid. cbn [fst snd].
    match goal with |- context [get_duty_officers None ?w2] =>
      destruct (get_duty_officers_None w2) as (o & -> & _) end.
    destruct o; cbn; by rewrite lookup_insert_eq.
Qed.

Lemma length_filter_split {A} (P Q : A -> Prop)
    `{forall x, Decision (P x)} `{forall x, Decision (Q x)} (l : list A) :
  length (filter P l)
  = (length (filter (fun x => P x /\ Q x) l)
     + length (filter (fun x => P x /\ ~ Q x) l))%nat.
Proof.
  induction l as [|x l IH]; [done|].
  destruct (decide (P x)) as [HP|HP]; destruct (decide (Q x)) as [HQ|HQ].
  - rewrite (filter_cons_True P), (filter_cons_True (fun x => P x /\ Q x)),
      (filter_cons_False (fun x => P x /\ ~ Q x)) by tauto. cbn. lia.
  - rewrite (filter_cons_True P), (filter_cons_False (fun x => P x /\ Q x)),
      (filter_cons_True (fun x => P x /\ ~ Q x)) by tauto. cbn. lia.
  - rewrite (filter_cons_False P), (filter_cons_False (fun x => P x /\ Q x)),
      (filter_cons_False (fun x => P x /\ ~ Q x)) by tauto. done.
  - rewrite (filter_cons_False P), (filter_cons_False (fun x => P x /\ Q x)),
      (filter_cons_False (fun x => P x /\ ~ Q x)) by tauto. done.
Qed.

Lemma filter_ext_length {A} (P Q : A -> Prop)
    `{forall x, Decision (P x)} `{forall x, Decision (Q x)} (l : list A) :
  (forall x, P x <-> Q x) -> length (filter P l) = length (filter Q l).
Proof.
  intros Hext. induction l as [|x l IH]; [done|].
  destruct (decide (P x)) as [HP|HP].
  - rewrite (filter_cons_True P) by done.
    rewrite (filter_cons_True Q) by (by apply Hext).
    cbn. by rewrite IH.
  - rewrite (filter_cons_False P) by done.
    rewrite (filter_cons_False Q) by (by rewrite <- Hext).
    done.
Qed.

(** The active checks are the passing and the failing ones. *)
Lemma active_checks_split self w :
  length (active_status_checks self w)
  = (length (all_passing_checks self w)
     + length (all_failing_checks self w))%nat.
Proof.
  unfold active_status_checks, all_passing_checks, all_failing_checks,
    checks_of.
  rewrite !length_fmap.
  rewrite (length_filter_split _
             (fun kc : Z * StatusCheck.t =>
                StatusCheck.calculated_status (snd kc)
                = Service.CALCULATED_PASSING_STATUS)).
  f_equal; apply filter_ext_length; intros [k c]; cbn.
  - rewrite andb_true_iff, String.eqb_eq. tauto.
  - rewrite andb_true_iff, negb_true_iff.
    destruct (String.eqb_spec (StatusCheck.calculated_status c)
                Service.CALCULATED_PASSING_STATUS); intuition congruence.
Qed.

(** X8.  Every cycle writes one snapshot under a new key, and the service
    carries the row that is stored: its time is the reading of the clock,
    its status the new status of the service, its counts those of the
    active, passing and failing checks, and passing plus failing is
    active. *)
Theorem update_status_snapshot (self : Service.t) (w : World) :
  let self' := fst (snd (update_status (self, w))) in
  let w' := snd (snd (update_status (self, w))) in
  let key := next_id (snapshots w) in
  snapshots w !! key = None /\
  exists snap,
    Service.snapshot self' = Some snap /\
    snapshots w' !! key = Some snap /\
    (forall k, k <> key -> snapshots w' !! k = snapshots w !! k) /\
    ServiceStatusSnapshot.id snap = Some key /\
    ServiceStatusSnapshot.service snap = Service.id self /\
    ServiceStatusSnapshot.time snap = clock w (ticks w) /\
    ServiceStatusSnapshot.overall_status snap = Service.overall_status self' /\
    ServiceStatusSnapshot.num_checks_active snap
    = Z.of_nat (length (active_status_checks self w)) /\
    ServiceStatusSnapshot.num_checks_passing snap
    = Z.of_nat (length (all_passing_checks self w)) /\
    ServiceStatusSnapshot.num_checks_failing snap
    = Z.of_nat (length (all_failing_checks self w)) /\
    ServiceStatusSnapshot.num_checks_passing snap
    + ServiceStatusSnapshot.num_checks_failing snap
    = ServiceStatusSnapshot.num_checks_active snap.
Proof.
  intros self' w' key. split; [apply next_id_fresh|].
  destruct (update_status_self self w) as (v & sn & Hself).
  assert (Hstatus : Service.overall_status self'
                    = most_severe (all_failing_checks self w)).
  { subst self'. by rewrite Hself. }
  pose proof (active_checks_split self w) as Hsplit.
  subst self' w'. rewrite Hstatus. clear Hself Hstatus.
  rewrite update_status_eq. cbn zeta. fold key.
  set (snap := ServiceStatusSnapshot.mk (Some key) _ _ _ _ _ _ false).
  set (s1 := Service.with_snapshot (Some snap) _).
  set (w1 := with_services _ _).
  assert (Hfields : forall b,
    let snap' := ServiceStatusSnapshot.with_did_send_alert b snap in
    ServiceStatusSnapshot.id snap' = Some key /\
    ServiceStatusSnapshot.service snap' = Service.id self /\
    ServiceStatusSnapshot.time snap' = clock w (ticks w) /\
    ServiceStatusSnapshot.overall_status snap'
    = most_severe (all_failing_checks self w) /\
    ServiceStatusSnapshot.num_checks_active snap'
    = Z.of_nat (length (active_status_checks self w)) /\
    ServiceStatusSnapshot.num_checks_passing snap'
    = Z.of_nat (length (all_passing_checks self w)) /\
    ServiceStatusSnapshot.num_checks_failing snap'
    = Z.of_nat (length (all_failing_checks self w)) /\
    ServiceStatusSnapshot.num_checks_passing snap'
    + ServiceStatusSnapshot.num_checks_failing snap'
    = ServiceStatusSnapshot.num_checks_active snap').
  { intros b. cbn. repeat split; lia. }
  assert (Hrow1 : snapshots w1 !! key = Some snap).
  { subst w1. cbn. by rewrite lookup_insert_eq. }
  assert (Hother1 : forall k, k <> key -> snapshots w1 !! k = snapshots w !! k).
  { intros k Hk. subst w1. cbn. by rewrite lookup_insert_ne. }
  destruct (negb _).
  - destruct (alert_snapshot s1 w1 snap key eq_refl eq_refl Hrow1)
      as (b & Hs & Hr).
    exists (ServiceStatusSnapshot.with_did_send_alert b snap).
    split; [done|]. split; [done|]. split; [|apply Hfields].
    intros k Hk. rewrite <- (Hother1 k Hk).
    destruct (alert_cases s1 w1) as [[n ->]|(v' & n & ->)]; [done|].
    rewrite (alert_send_eq _ _ snap) by done. cbn zeta.
    unfold save_row. cbn [ServiceStatusSnapshot.id
      ServiceStatusSnapshot.with_did_send_alert fst snd].
    match goal with |- context [get_duty_officers None ?w2] =>
      destruct (get_duty_officers_None w2) as (o & -> & _) end.
    destruct o; cbn; by rewrite lookup_insert_ne.
  - exists snap. split; [done|]. split; [done|]. split; [done|].
    apply (Hfields false).
Qed.

(** X9.  A cycle that finds the service PASSING and leaves it PASSING
    does not enter the alert step: it reads the clock once, sends nothing,
    leaves [last_alert_sent] as it is, and its snapshot is not marked. *)
Theorem update_status_steady (self : Service.t) (w : World)
    (Hpassing : Service.overall_status self = Service.PASSING_STATUS)
    (Hhealthy : most_severe (all_failing_checks self w)
                = Service.PASSING_STATUS) :
  exists self' w' snap,
    update_status (self, w) = (Return tt, (self', w')) /\
    sent w' = sent w /\
    ticks w' = S (ticks w) /\
    Service.last_alert_sent self' = Service.last_alert_sent self /\
    Service.overall_status self' = Service.PASSING_STATUS /\
    Service.snapshot self' = Some snap /\
    ServiceStatusSnapshot.did_send_alert snap = false /\
    services w' !! Service.id self = Some self'.
Proof.
  rewrite update_status_eq. cbn zeta. rewrite Hpassing, Hhealthy.
  cbn [String.eqb andb negb].
  change (String.eqb Service.PASSING_STATUS Service.PASSING_STATUS) with true.
  cbn [andb negb].
  eexists _, _, _. split; [reflexivity|]. cbn.
  repeat split; try done. by rewrite lookup_insert_eq.
Qed.

Lemma update_status_steady_witness :
  let self := Service.with_overall_status Service.PASSING_STATUS
                recovering_service in
  Service.overall_status self = Service.PASSING_STATUS /\
  most_severe (all_failing_checks self empty_world) = Service.PASSING_STATUS /\
  sent (snd (snd (update_status (self, empty_world)))) = [].
Proof.
  intros self. split; [reflexivity|]. split; [reflexivity|].
  destruct (update_status_steady self empty_world eq_refl eq_refl)
    as (self' & w' & snap & -> & Hsent & _).
  exact Hsent.
Defined.

Lemma most_severe_critical checks :
  most_severe checks = Service.CRITICAL_STATUS <->
  exists c, c ∈ checks /\ StatusCheck.importance c = Service.CRITICAL_STATUS.
Proof.
  split.
  - intros Hms.
    destruct (most_severe_cases checks)
      as [(H & _)|[(_ & _ & H)|[(_ & _ & _ & H)|(_ & _ & _ & H)]]];
      try (rewrite Hms in H; discriminate).
    apply list_elem_of_fmap in H as (c & Hc & Hin). by exists c.
  - intros (c & Hin & Hc).
    destruct (most_severe_cases checks)
      as [(_ & H)|[(H & _)|[(H & _)|(H & _)]]]; [done|..];
      exfalso; apply H, list_elem_of_fmap; by exists c.
Qed.

(** X10.  After a cycle, [is_critical] holds exactly when the service was
    not CRITICAL before and one of its failing checks is of CRITICAL
    importance; and it does not hold after the cycle that follows, run on
    the state the first cycle left: a service that stays CRITICAL is
    "just got critical" once. *)
Theorem is_critical_once (self : Service.t) (w : World) :
  let self1 := fst (snd (update_status (self, w))) in
  let w1 := snd (snd (update_status (self, w))) in
  (is_critical self1 = true <->
   Service.overall_status self <> Service.CRITICAL_STATUS /\
   exists c, c ∈ all_failing_checks self w /\
             StatusCheck.importance c = Service.CRITICAL_STATUS) /\
  is_critical (fst (snd (update_status (self1, w1)))) = false.
Proof.
  intros self1 w1.
  destruct (update_status_self self w) as (v & sn & Hself).
  fold self1 in Hself.
  assert (Hsame : all_failing_checks self1 w1 = all_failing_checks self w).
  { unfold all_failing_checks, checks_of.
    assert (Hw : status_checks w1 = status_checks w).
    { subst w1. rewrite update_status_eq. cbn zeta.
      destruct (negb _); [|done].
      match goal with |- context [alert (?a, ?b)] =>
        destruct (alert_tables a b) as (-> & _) end. done. }
    rewrite Hw, Hself. done. }
  split.
  - unfold is_critical. rewrite Hself. cbn.
    rewrite andb_true_iff, negb_true_iff, String.eqb_eq, most_severe_critical.
    destruct (String.eqb_spec (Service.overall_status self)
                Service.CRITICAL_STATUS); split; intros [H1 H2];
      first [ done | split; done ].
  - destruct (update_status_self self1 w1) as (v' & sn' & ->).
    unfold is_critical. cbn. rewrite Hsame, Hself. cbn.
    by destruct (String.eqb _ Service.CRITICAL_STATUS).
Qed.

(** X11.  An alert that went out holds back the next one: when the alert
    step has set [last_alert_sent], a second alert step whose reading of
    the clock is within the cooldown of that time changes nothing and
    sends nothing. *)
Theorem alert_twice (self : Service.t) (w : World) (m : Z)
    (Henabled : Service.alerts_enabled self = true)
    (Hstatus : Service.overall_status self <> Service.PASSING_STATUS)
    (Hwindow : cooldown_minutes (Service.overall_status self) = Some m)
    (Hout : ~ within_cooldown self (clock w (ticks w)))
    (Hsoon : let w1 := snd (snd (alert (self, w))) in
             clock w1 (ticks w1) - clock w (ticks w + throttle_reads self)
             < timedelta_minutes m) :
  let self1 := fst (snd (alert (self, w))) in
  let w1 := snd (snd (alert (self, w))) in
  alert (self1, w1) = (Return tt, (self1, with_ticks (S (ticks w1)) w1)) /\
  sent (snd (snd (alert (self1, w1)))) = sent w1.
Proof.
  intros self1 w1. cbn zeta in Hsoon. fold w1 in Hsoon.
  assert (Hlast : Service.last_alert_sent self1
                  = Some (clock w (ticks w + throttle_reads self))).
  { subst self1. rewrite (alert_not_held self w Henabled Hstatus Hout).
    by rewrite alert_send_last_alert_sent. }
  destruct (alert_frame self w) as (v & sn & Hframe). fold self1 in Hframe.
  assert (Hheld : alert (self1, w1)
                  = (Return tt, (self1, with_ticks (S (ticks w1)) w1))).
  { apply alert_held.
    - by rewrite Hframe.
    - by rewrite Hframe.
    - exists (clock w (ticks w + throttle_reads self)), m.
      split; [done|]. split; [by rewrite Hframe|]. done. }
  split; [done|]. by rewrite Hheld.
Qed.

Lemma alert_twice_witness :
  let w := world_at (timedelta_minutes 11) in
  Service.alerts_enabled failing_service = true /\
  Service.overall_status failing_service <> Service.PASSING_STATUS /\
  cooldown_minutes (Service.overall_status failing_service) = Some 10 /\
  ~ within_cooldown failing_service (clock w (ticks w)) /\
  sent (snd (snd (alert (fst (snd (alert (failing_service, w))),
                         snd (snd (alert (failing_service, w)))))))
  = sent (snd (snd (alert (failing_service, w)))).
Proof.
  intros w.
  assert (Hout : ~ within_cooldown failing_service (clock w (ticks w))).
  { intros (last & m & Hl & Hm & Hlt).
    vm_compute in Hl. injection Hl as <-.
    vm_compute in Hm. injection Hm as <-.
    vm_compute in Hlt. discriminate Hlt. }
  split; [reflexivity|]. split; [discriminate|]. split; [reflexivity|].
  split; [exact Hout|].
  apply (alert_twice failing_service w 10 eq_refl ltac:(discriminate)
           eq_refl Hout).
  vm_compute. reflexivity.
Defined.

(** ** The duty roster *)

Lemma map_fmap {A B} (f : A -> B) (l : list A) : map f l = f <$> l.
Proof. induction l as [|x l IH]; [done|]. cbn. by rewrite IH. Qed.

(** Without a time, the time is the next reading of the clock. *)
Lemma get_duty_officers_now w :
  get_duty_officers None w
  = (fst (get_duty_officers (Some (clock w (ticks w))) w),
     with_ticks (S (ticks w)) w).
Proof.
  unfold get_duty_officers, bind, timezone_now, get, ret. cbn [fst snd].
  cbn [shifts profiles with_ticks].
  destruct (rows _ _); [|done].
  by destruct (objects_get _ _ _).
Qed.

(** X12.  When some shift that is not deleted has [start < t < end], the
    duty officers at [t] are the users of all such shifts, one entry for
    each, and the fallback profile is not among them; a shift that starts
    or ends at [t] itself, or is deleted, contributes nobody. *)
Theorem duty_officers_on_shift (w : World) (t : Z) (k0 : Z) (s0 : Shift.t)
    (Hrow : shifts w !! k0 = Some s0)
    (Hduty : Shift.deleted s0 = false /\
             Shift.start s0 < t /\ t < Shift.end_ s0) :
  exists officers,
    get_duty_officers (Some t) w = (Return officers, w) /\
    length officers = length (rows (on_duty t) (shifts w)) /\
    (forall u, ShiftUser u ∈ officers <->
       exists k s, shifts w !! k = Some s /\ Shift.user s = u /\
                   Shift.deleted s = false /\
                   Shift.start s < t /\ t < Shift.end_ s) /\
    (forall p, FallbackProfile p ∉ officers).
Proof.
  assert (Hon : forall s, on_duty t s = true <->
            Shift.deleted s = false /\ Shift.start s < t /\ t < Shift.end_ s).
  { intros s. unfold on_duty.
    rewrite !andb_true_iff, negb_true_iff, !Z.ltb_lt. tauto. }
  assert (Hin0 : s0 ∈ rows (on_duty t) (shifts w)).
  { apply elem_of_rows. split; [by apply Hon | by exists k0]. }
  unfold get_duty_officers, bind, get, ret. cbn [fst snd].
  destruct (rows (on_duty t) (shifts w)) as [|s current] eqn:Hrows;
    [by apply not_elem_of_nil in Hin0|].
  eexists. split; [reflexivity|]. rewrite <- Hrows. clear Hin0.
  split; [by rewrite length_map|]. split.
  - intros u. rewrite map_fmap, list_elem_of_fmap. split.
    + intros (s' & [= ->] & Hin). apply elem_of_rows in Hin as [Hd [k Hk]].
      exists k, s'. split; [done|]. split; [done|]. by apply Hon.
    + intros (k & s' & Hk & <- & Hd). exists s'. split; [done|].
      apply elem_of_rows. split; [by apply Hon | by exists k].
  - intros p Hp. rewrite map_fmap in Hp.
    by apply list_elem_of_fmap in Hp as (s' & [=] & _).
Qed.

Lemma duty_officers_on_shift_witness :
  let w := snd (update_shifts roster_world) in
  shifts w !! 1 = Some (Shift.mk (Some 1) 100 200 1 "e1" false) /\
  (false = false /\ 100 < 150 /\ 150 < 200) /\
  exists officers,
    get_duty_officers (Some 150) w = (Return officers, w) /\
    ShiftUser 1 ∈ officers.
Proof.
  intros w. split; [reflexivity|].
  split; [repeat split; first [reflexivity | lia]|].
  destruct (duty_officers_on_shift w 150 1
              (Shift.mk (Some 1) 100 200 1 "e1" false) eq_refl
              (conj eq_refl (conj eq_refl eq_refl)))
    as (officers & Heq & _ & Hin & _).
  exists officers. split; [exact Heq|].
  apply Hin. exists 1, (Shift.mk (Some 1) 100 200 1 "e1" false).
  repeat split; first [reflexivity | lia].
Defined.

(** X13.  When no shift is on duty at [t]: with at most one fallback
    profile the lookup returns, the fallback profile alone if there is one
    and nobody if there is none; with two fallback profiles it raises
    [MultipleObjectsReturned]. *)
Theorem duty_officers_fallback (w : World) (t : Z)
    (Hnone : forall k s, shifts w !! k = Some s -> on_duty t s = false) :
  (fallback_unique (profiles w) ->
   exists officers,
     get_duty_officers (Some t) w = (Return officers, w) /\
     (forall k p, profiles w !! k = Some p ->
                  UserProfile.fallback_alert_user p = true ->
                  officers = [FallbackProfile (UserProfile.with_id k p)]) /\
     ((forall k p, profiles w !! k = Some p ->
                   UserProfile.fallback_alert_user p = false) ->
      officers = [])) /\
  (forall k1 k2 p1 p2,
     k1 <> k2 ->
     profiles w !! k1 = Some p1 -> profiles w !! k2 = Some p2 ->
     UserProfile.fallback_alert_user p1 = true ->
     UserProfile.fallback_alert_user p2 = true ->
     get_duty_officers (Some t) w = (Raise MultipleObjectsReturned, w)).
Proof.
  assert (Hrows : rows (on_duty t) (shifts w) = []).
  { destruct (rows (on_duty t) (shifts w)) as [|s l] eqn:Hr; [done|].
    assert (Hin : s ∈ rows (on_duty t) (shifts w))
      by (rewrite Hr; apply list_elem_of_here).
    apply elem_of_rows in Hin as [Hd [k Hk]]. by rewrite (Hnone k s Hk) in Hd. }
  unfold get_duty_officers, bind, get, ret, raise. cbn [fst snd].
  rewrite Hrows.
  pose proof (objects_get_spec UserProfile.with_id
                UserProfile.fallback_alert_user (profiles w)) as Hget.
  destruct (objects_get _ _ _) as [|u|].
  - split.
    + intros _. eexists. split; [reflexivity|]. split; [|done].
      intros k p Hk Hp. by rewrite (Hget k p Hk) in Hp.
    + intros k1 k2 p1 p2 _ H1 _ Hp1 _. by rewrite (Hget k1 p1 H1) in Hp1.
  - destruct Hget as (k & p & -> & Hk & Hp & Huniq). split.
    + intros _. eexists. split; [reflexivity|]. split.
      * intros k' p' Hk' Hp'.
        assert (k' = k) as -> by by apply (Huniq k' p').
        congruence.
      * intros Hall. by rewrite (Hall k p Hk) in Hp.
    + intros k1 k2 p1 p2 Hne H1 H2 Hp1 Hp2. exfalso. apply Hne.
      by rewrite (Huniq k1 p1 H1 Hp1), (Huniq k2 p2 H2 Hp2).
  - destruct Hget as (k1 & k2 & p1 & p2 & Hne & H1 & H2 & Hp1 & Hp2). split.
    + intros Huniq. exfalso. apply Hne. by apply (Huniq k1 k2 p1 p2).
    + done.
Qed.

Lemma duty_officers_fallback_witness :
  (forall k s, shifts one_fallback_world !! k = Some s -> on_duty 5 s = false) /\
  fallback_unique (profiles (save_profiles profiles_to_save one_fallback_world)) /\
  exists officers,
    get_duty_officers (Some 5)
      (save_profiles profiles_to_save one_fallback_world)
    = (Return officers,
       save_profiles profiles_to_save one_fallback_world).
Proof.
  assert (Hnone : forall k s,
            shifts (save_profiles profiles_to_save one_fallback_world) !! k
            = Some s -> on_duty 5 s = false) by done.
  assert (Huniq : fallback_unique
            (profiles (save_profiles profiles_to_save one_fallback_world))).
  { apply save_profiles_preserves_unique.
    intros i j p q Hp Hq Hfp Hfq.
    assert (Hkey : forall k r, profiles one_fallback_world !! k = Some r ->
              UserProfile.fallback_alert_user r = true -> k = 1).
    { intros k r Hr Hfr. cbn in Hr.
      destruct (decide (k = 1)) as [->|H1]; [done|].
      rewrite lookup_insert_ne in Hr by done.
      destruct (decide (k = 2)) as [->|H2].
      - rewrite lookup_insert_eq in Hr. injection Hr as <-. done.
      - rewrite lookup_insert_ne in Hr by done. done. }
    rewrite (Hkey i p Hp Hfp), (Hkey j q Hq Hfq). done. }
  split; [done|]. split; [exact Huniq|].
  destruct (proj1 (duty_officers_fallback _ 5 Hnone) Huniq)
    as (officers & Heq & _).
  by exists officers.
Defined.

(** X14.  Profile saves and the roster fit together: after any sequence
    of profile saves from a state with at most one fallback profile, the
    lookup of the duty officers returns, at every time. *)
Theorem duty_officers_after_saves (w : World) (ps : list UserProfile.t)
    (t : Z) (Hinv : fallback_unique (profiles w)) :
  exists officers,
    fst (get_duty_officers (Some t) (save_profiles ps w)) = Return officers.
Proof.
  pose proof (save_profiles_preserves_unique ps w Hinv) as Huniq.
  set (w' := save_profiles ps w) in *.
  unfold get_duty_officers, bind, get, ret, raise. cbn [fst snd].
  destruct (rows (on_duty t) (shifts w')) as [|s l]; [|by eexists].
  pose proof (objects_get_spec UserProfile.with_id
                UserProfile.fallback_alert_user (profiles w')) as Hget.
  destruct (objects_get _ _ _) as [|u|]; [by eexists | by eexists |].
  destruct Hget as (k1 & k2 & p1 & p2 & Hne & H1 & H2 & Hp1 & Hp2).
  exfalso. apply Hne. by apply (Huniq k1 k2 p1 p2).
Qed.

Lemma duty_officers_after_saves_witness :
  fallback_unique (profiles empty_world) /\
  exists officers,
    fst (get_duty_officers (Some 5) (save_profiles profiles_to_save empty_world))
    = Return officers.
Proof.
  assert (H : fallback_unique (profiles empty_world)).
  { intros i j p q Hp. cbn in Hp. by rewrite lookup_empty in Hp. }
  split; [exact H|].
  apply (duty_officers_after_saves empty_world profiles_to_save 5 H).
Defined.

(** ** The mobile number of a profile *)

Lemma format_plus s : py_format "+%s" (Single (VStr s)) = Return ("+" +:+ s).
Proof. format_lit. reflexivity. Qed.

(** X15.  [save] drops one leading [+] from the mobile number and
    [prefixed_mobile_number] puts one back: for a number entered with a
    single leading [+], the prefixed number of the saved profile is the
    number as entered; for a number entered without, it is the number
    with a [+] in front. *)
Theorem prefixed_mobile_number_saved (p : UserProfile.t) (w : World) :
  let saved_profile := fst (snd (UserProfile_save (p, w))) in
  (forall digits,
     UserProfile.mobile_number p = "+" +:+ digits ->
     UserProfile.mobile_number saved_profile = digits /\
     prefixed_mobile_number saved_profile
     = Return (UserProfile.mobile_number p)) /\
  (startswith (UserProfile.mobile_number p) "+" = false ->
   UserProfile.mobile_number saved_profile = UserProfile.mobile_number p /\
   prefixed_mobile_number saved_profile
   = Return ("+" +:+ UserProfile.mobile_number p)).
Proof.
  intros saved_profile. subst saved_profile.
  rewrite UserProfile_save_eq. cbn zeta. cbn [fst snd].
  unfold prefixed_mobile_number, save_row. split.
  - intros digits Hnum. rewrite Hnum. cbn [startswith Ascii.eqb].
    change (startswith ("+" +:+ digits) "+") with true. cbn iota.
    destruct p as [[i|] user number alias flag]; cbn in *;
      by rewrite format_plus.
  - intros Hno. rewrite Hno.
    destruct p as [[i|] user number alias flag]; cbn in *;
      by rewrite format_plus.
Qed.

Lemma prefixed_mobile_number_saved_witness :
  UserProfile.mobile_number (profile_of None 30 false) = "+" +:+ "15550100" /\
  prefixed_mobile_number
    (fst (snd (UserProfile_save (profile_of None 30 false, empty_world))))
  = Return "+15550100".
Proof.
  split; [reflexivity|].
  destruct (prefixed_mobile_number_saved (profile_of None 30 false) empty_world)
    as [H _].
  apply (H "15550100"). reflexivity.
Defined.

(** ** The metric check, in general *)

(** The run in one piece: both readings of the clock come first; an
    exception of the comparison or of the message leaves nothing
    written. *)
Lemma graphite_run_eq self w :
  GraphiteStatusCheck_run (self, w) =
  let series := parse_metric w (StatusCheck.metric self)
                  (StatusCheck.frequency self) in
  let num := Series.num_series_with_data series in
  let w1 := with_ticks (S (S (ticks w))) w in
  let compared :=
    if 0 <? num then
      match compare_series self series with
      | Return verdict => Return (Some (fst verdict), snd verdict)
      | Raise e => Raise e
      end
    else Return (if Series.error series then Some true else None, None) in
  match compared with
  | Raise e => (Raise e, (self, w1))
  | Return (failed1, failure_value) =>
      let failed := if lt_field num (StatusCheck.expected_num_hosts self)
                    then Some true else failed1 in
      if not_failed failed then
        (Return tt,
         after_record self w
           (graphite_result self w (Series.raw series) true None))
      else
        match format_error_message self failure_value num with
        | Return msg =>
            (Return tt,
             after_record self w
               (graphite_result self w (Series.raw series) false (Some msg)))
        | Raise e => (Raise e, (self, w1))
        end
  end.
Proof.
  unfold GraphiteStatusCheck_run, bind, in_world, get_self, get_world,
    lift_outcome, ret, timezone_now.
  cbn -[compare_series format_error_message float_of_int].
  destruct (0 <? _).
  - destruct (compare_series _ _) as [[f fv]|e];
      cbn -[format_error_message]; [|done].
    destruct (lt_field _ _); cbn -[format_error_message].
    + by destruct (format_error_message _ _ _).
    + destruct f; cbn -[format_error_message]; [|done].
      by destruct (format_error_message _ _ _).
  - cbn -[format_error_message].
    destruct (lt_field _ _); cbn -[format_error_message]; [done|].
    by destruct (Series.error _).
Qed.

(** Outside the five operators the comparison is the last branch. *)
Lemma compare_series_unsupported self series :
  supported_check_type (StatusCheck.check_type self) = false ->
  compare_series self series =
  match py_format "Check type %s not supported"
          (Single (str_of_field (StatusCheck.check_type self))) with
  | Return msg => Raise (PyException msg)
  | Raise e => Raise e
  end.
Proof.
  unfold compare_series. destruct (StatusCheck.check_type self) as [op|]; [|done].
  intros H.
  destruct op as [|[[] [] [] [] [] [] [] []] op]; try reflexivity;
    (destruct op as [|[[] [] [] [] [] [] [] []] op];
     first [ reflexivity | discriminate H | idtac ]);
    destruct op; first [ reflexivity | discriminate H ].
Qed.



Lemma format_not_supported check_type :
  py_format "Check type %s not supported" (Single (str_of_field check_type))
  = Return ("Check type " +:+ default "None" check_type +:+ " not supported").
Proof. destruct check_type; format_lit; reflexivity. Qed.





(** X18.  A metric run on series with data whose operator is none of
    [<], [<=], [>], [>=], [==] raises [Check type ... not supported]
    after both readings of the clock; no result is recorded and the
    check is not saved. *)
Theorem graphite_run_unsupported self w :
  let series := parse_metric w (StatusCheck.metric self)
                  (StatusCheck.frequency self) in
  0 < Series.num_series_with_data series ->
  supported_check_type (StatusCheck.check_type self) = false ->
  GraphiteStatusCheck_run (self, w)
  = (Raise (PyException
              ("Check type " +:+ default "None" (StatusCheck.check_type self)
               +:+ " not supported")),
     (self, with_ticks (S (S (ticks w))) w)).
Proof.
  intros series Hnum Hop. rewrite graphite_run_eq. cbv zeta. fold series.
  assert ((0 <? Series.num_series_with_data series) = true) as -> by lia.
  rewrite compare_series_unsupported by done.
  by rewrite format_not_supported.
Qed.

Lemma graphite_run_unsupported_witness :
  GraphiteStatusCheck_run (odd_check, cpu_world)
  = (Raise (PyException "Check type != not supported"),
     (odd_check, with_ticks 2 cpu_world)).
Proof.
  apply (graphite_run_unsupported odd_check cpu_world); [cbn; lia | reflexivity].
Defined.

(** ** The build check on an enabled job *)






(** ** The shift synchronizer, row by row *)

Lemma user_lookup_fold (l : list User.t) (acc : gmap string User.t) key u :
  foldl (fun lookup u => <[lower (User.username u) := u]> lookup) acc l !! key
  = Some u ->
  acc !! key = Some u \/ (u ∈ l /\ lower (User.username u) = key).
Proof.
  revert acc. induction l as [|a l IH]; intros acc H; [by left|].
  cbn in H. apply IH in H as [H|[Hin Hkey]].
  - apply lookup_insert_Some in H as [[<- <-]|[_ H]]; [|by left].
    right. split; [apply list_elem_of_here | done].
  - right. split; [by apply list_elem_of_further | done].
Qed.

Lemma user_lookup_fold_keeps (l : list User.t) (acc : gmap string User.t) key :
  is_Some (acc !! key) ->
  is_Some (foldl (fun lookup u => <[lower (User.username u) := u]> lookup)
             acc l !! key).
Proof.
  revert acc. induction l as [|a l IH]; intros acc H; [done|].
  cbn. apply IH. destruct (decide (lower (User.username a) = key)) as [<-|Hne].
  - by rewrite lookup_insert_eq.
  - by rewrite lookup_insert_ne.
Qed.

Lemma user_lookup_fold_in (l : list User.t) (acc : gmap string User.t) u :
  u ∈ l ->
  is_Some (foldl (fun lookup u => <[lower (User.username u) := u]> lookup)
             acc l !! lower (User.username u)).
Proof.
  revert acc. induction l as [|a l IH]; intros acc H.
  - by apply not_elem_of_nil in H.
  - cbn. apply elem_of_cons in H as [->|H]; [|by apply IH].
    apply user_lookup_fold_keeps. by rewrite lookup_insert_eq.
Qed.

(** X20.  The table of users the synchronizer matches events against
    holds active users only, each under its user name in lower case, and
    every active user's lower-cased name is a key of it. *)
Theorem user_lookup_spec (w : World) :
  (forall key u, user_lookup w !! key = Some u ->
     User.is_active u = true /\ lower (User.username u) = key /\
     exists k, users w !! k = Some u) /\
  (forall k u, users w !! k = Some u -> User.is_active u = true ->
     is_Some (user_lookup w !! lower (User.username u))).
Proof.
  unfold user_lookup. split.
  - intros key u H. apply user_lookup_fold in H as [H|[Hin Hkey]].
    + by rewrite lookup_empty in H.
    + apply elem_of_rows in Hin as [Hact Hk]. done.
  - intros k u Hk Hact. apply user_lookup_fold_in.
    apply elem_of_rows. split; [done | by exists k].
Qed.

Lemma user_lookup_spec_witness :
  is_Some (user_lookup roster_world !! lower "Alice").
Proof.
  destruct (user_lookup_spec roster_world) as [_ H].
  apply (H 1 (User.mk 1 "Alice" true)); reflexivity.
Defined.

(** The only exception of the loop is that of the lookup by uid, and it
    takes two rows of one uid. *)
Lemma sync_rows_raise_dup lookup events table e final :
  sync_rows lookup events table = (Raise e, final) ->
  e = MultipleObjectsReturned /\ ~ uid_unique table.
Proof.
  intros H. apply sync_rows_raise in H as (e1 & ev & e2 & _ & Hpre & Hraise).
  destruct (matched_user lookup ev) as [user|] eqn:M.
  - pose proof (sync_row_matched lookup ev user final M) as Hm.
    rewrite Hraise in Hm.
    destruct Hm as (-> & _ & k1 & k2 & a1 & a2 & Hne & H1 & H2 & Hu1 & Hu2).
    split; [done|]. intros Huniq.
    pose proof (sync_rows_uid_unique lookup e1 table Huniq) as Hfinal.
    rewrite Hpre in Hfinal. cbn in Hfinal.
    apply Hne. apply (Hfinal k1 k2 a1 a2 H1 H2). congruence.
  - rewrite sync_row_unmatched in Hraise by done. discriminate.
Qed.

Lemma sync_row_keeps lookup event table k s :
  table !! k = Some s ->
  exists s', snd (sync_row lookup event table) !! k = Some s' /\
             Shift.uid s' = Shift.uid s.
Proof.
  intros Hk. destruct (matched_user lookup event) as [user|] eqn:M.
  - pose proof (sync_row_matched lookup event user table M) as Hm.
    destruct (sync_row lookup event table) as [[[]|e] table']; cbn.
    + destruct Hm as (k0 & -> & _ & Hown).
      destruct (decide (k = k0)) as [->|Hne].
      * rewrite lookup_insert_eq. eexists. split; [done|].
        cbn. symmetry. by apply Hown.
      * rewrite lookup_insert_ne by done. eauto.
    + destruct Hm as (_ & -> & _). eauto.
  - rewrite sync_row_unmatched by done. eauto.
Qed.

Lemma sync_rows_keeps lookup events table k s :
  table !! k = Some s ->
  exists s', snd (sync_rows lookup events table) !! k = Some s' /\
             Shift.uid s' = Shift.uid s.
Proof.
  revert table s. induction events as [|event events IH]; intros table s Hk.
  - cbn. eauto.
  - rewrite sync_rows_cons.
    destruct (sync_row_keeps lookup event table k s Hk) as (s1 & H1 & Hu1).
    destruct (sync_row lookup event table) as [[[]|e] table']; cbn in H1.
    + destruct (IH table' s1 H1) as (s2 & H2 & Hu2).
      exists s2. split; [done | congruence].
    + cbn. eauto.
Qed.

Lemma shifts_after_update w :
  shifts (snd (update_shifts w))
  = snd (sync_table (clock w (ticks w)) (user_lookup w) (get_events w)
           (shifts w)).
Proof. by rewrite update_shifts_table. Qed.

Lemma fst_update_shifts w :
  fst (update_shifts w)
  = fst (sync_table (clock w (ticks w)) (user_lookup w) (get_events w)
           (shifts w)).
Proof. by rewrite update_shifts_table. Qed.

Lemma roster_uid_unique : uid_unique (shifts roster_world).
Proof.
  intros i j a b Hi Hj Hu.
  change (shifts roster_world)
    with (<[1 := Shift.mk (Some 1) 90 95 2 "e1" false]>
            (<[2 := Shift.mk (Some 2) 500 600 1 "manual" false]>
               (∅ : gmap Z Shift.t))) in Hi, Hj.
  repeat match goal with
         | H : <[_ := _]> _ !! _ = Some _ |- _ =>
             apply lookup_insert_Some in H as [[<- <-]|[? H]]
         | H : ∅ !! _ = Some _ |- _ => by rewrite lookup_empty in H
         end; first [ done | discriminate Hu ].
Qed.

(** X21.  When no two shift rows share a uid, the synchronizer returns.
    It raises nothing but [MultipleObjectsReturned], and that only on a
    table in which two rows share a uid. *)
Theorem update_shifts_returns (w : World) :
  (uid_unique (shifts w) -> fst (update_shifts w) = Return tt) /\
  (forall e, fst (update_shifts w) = Raise e ->
     e = MultipleObjectsReturned /\ ~ uid_unique (shifts w)).
Proof.
  assert (Hraise : forall e, fst (update_shifts w) = Raise e ->
            e = MultipleObjectsReturned /\ ~ uid_unique (shifts w)).
  { intros e. rewrite fst_update_shifts. unfold sync_table.
    destruct (sync_rows _ _ _) as [o final] eqn:E. cbn. intros ->.
    apply sync_rows_raise_dup in E as [-> Hdup]. split; [done|].
    intros Huniq. apply Hdup. by apply mark_future_deleted_uid_unique. }
  split; [|done]. intros Huniq.
  destruct (fst (update_shifts w)) as [[]|e] eqn:E; [done|].
  by destruct (Hraise e eq_refl) as [_ Hdup].
Qed.

Lemma update_shifts_returns_witness :
  fst (update_shifts roster_world) = Return tt.
Proof.
  destruct (update_shifts_returns roster_world) as [H _].
  apply H, roster_uid_unique.
Defined.

(** X22.  Whatever the outcome, the synchronizer removes no shift row
    and changes no row's uid: every key of the table before the run is a
    key after it, under the same uid. *)
Theorem update_shifts_keeps_rows (w : World) (k : Z) (s : Shift.t)
    (Hrow : shifts w !! k = Some s) :
  exists s', shifts (snd (update_shifts w)) !! k = Some s' /\
             Shift.uid s' = Shift.uid s.
Proof.
  rewrite shifts_after_update. unfold sync_table.
  destruct (sync_rows_keeps (user_lookup w) (get_events w)
              (mark_future_deleted (clock w (ticks w)) (shifts w)) k
              (delete_if_future (clock w (ticks w)) s)) as (s' & Hs' & Hu).
  { unfold mark_future_deleted. by rewrite lookup_fmap, Hrow. }
  exists s'. split; [done|]. by rewrite Hu, delete_if_future_uid.
Qed.

Lemma update_shifts_keeps_rows_witness :
  exists s', shifts (snd (update_shifts roster_world)) !! 2 = Some s' /\
             Shift.uid s' = "manual".
Proof.
  apply (update_shifts_keeps_rows roster_world 2
           (Shift.mk (Some 2) 500 600 1 "manual" false)).
  reflexivity.
Defined.

Lemma touches_app lookup uid events1 events2 :
  touches lookup uid (events1 ++ events2)%list <->
  touches lookup uid events1 \/ touches lookup uid events2.
Proof. unfold touches. apply Exists_app. Qed.

(** X23.  Whatever the outcome, a shift row whose uid no matched event
    of the feed carries is left as it was when it had started by the time
    of the run, and is left marked deleted, with nothing else changed,
    when it starts later. *)
Theorem update_shifts_untouched (w : World) (k : Z) (s : Shift.t)
    (Hrow : shifts w !! k = Some s)
    (Hfeed : ~ touches (user_lookup w) (Shift.uid s) (get_events w)) :
  shifts (snd (update_shifts w)) !! k
  = Some (if clock w (ticks w) <? Shift.start s
          then Shift.with_deleted true s else s).
Proof.
  rewrite shifts_after_update. unfold sync_table.
  set (now := clock w (ticks w)).
  assert (Hmark : mark_future_deleted now (shifts w) !! k
                  = Some (delete_if_future now s)).
  { unfold mark_future_deleted. by rewrite lookup_fmap, Hrow. }
  change (if now <? Shift.start s then Shift.with_deleted true s else s)
    with (delete_if_future now s).
  destruct (sync_rows _ _ _) as [[[]|e] final] eqn:E; cbn.
  - apply (sync_rows_frame _ _ _ _ (Shift.uid s) E Hfeed);
      [apply delete_if_future_uid | done].
  - apply sync_rows_raise in E as (e1 & ev & e2 & Hev & Hpre & _).
    apply (sync_rows_frame _ _ _ _ (Shift.uid s) Hpre);
      [|apply delete_if_future_uid | done].
    intros Ht. apply Hfeed. rewrite Hev. apply touches_app. by left.
Qed.

Lemma update_shifts_untouched_witness :
  shifts (snd (update_shifts roster_world)) !! 2
  = Some (Shift.mk (Some 2) 500 600 1 "manual" true).
Proof.
  apply (update_shifts_untouched roster_world 2
           (Shift.mk (Some 2) 500 600 1 "manual" false)); [reflexivity|].
  intros H.
  repeat (apply Exists_cons in H as [[_ H]|H]; [discriminate H|]).
  by apply Exists_nil in H.
Defined.

(** After a returning pass over the feed, the last matched event of a uid
    has its row. *)
Lemma sync_table_row now lookup events1 event events2 table final user :
  sync_table now lookup (events1 ++ event :: events2)%list table
  = (Return tt, final) ->
  matched_user lookup event = Some user ->
  ~ touches lookup (Event.uid event) events2 ->
  exists k, final !! k = Some (row_of k event user) /\
            only_at (Event.uid event) k final.
Proof.
  unfold sync_table. intros E M Hlast.
  destruct (sync_rows_one_key _ _ _ _ event user E) as (k & (s & Hs & Hu) & Honly);
    [apply elem_of_app; right; apply list_elem_of_here | done |].
  exists k. split; [|done].
  by rewrite Hs, (sync_rows_last _ _ _ _ _ _ _ E M Hlast k s Hs Hu).
Qed.

Lemma update_shifts_return w :
  fst (update_shifts w) = Return tt ->
  sync_table (clock w (ticks w)) (user_lookup w) (get_events w) (shifts w)
  = (Return tt, shifts (snd (update_shifts w))).
Proof.
  rewrite fst_update_shifts, shifts_after_update.
  destruct (sync_table _ _ _ _) as [o final]. cbn. by intros ->.
Qed.

(** X24.  After a run that returned, an event whose summary names an
    active user, and that is the last such event of its uid in the feed,
    has exactly one row: it carries the event's start and end and the
    user's id, and it is not deleted, also when the run had just marked it
    deleted or when an earlier event of the feed had written it. *)
Theorem update_shifts_matched_row (w : World) (events1 events2 : list Event.t)
    (event : Event.t) (user : User.t)
    (Hret : fst (update_shifts w) = Return tt)
    (Hfeed : get_events w = (events1 ++ event :: events2)%list)
    (Hmatch : matched_user (user_lookup w) event = Some user)
    (Hlast : ~ touches (user_lookup w) (Event.uid event) events2) :
  exists k,
    shifts (snd (update_shifts w)) !! k
    = Some (Shift.mk (Some k) (Event.start event) (Event.end_ event)
              (User.id user) (Event.uid event) false) /\
    forall k' s, shifts (snd (update_shifts w)) !! k' = Some s ->
                 Shift.uid s = Event.uid event -> k' = k.
Proof.
  apply update_shifts_return in Hret. rewrite Hfeed in Hret.
  destruct (sync_table_row _ _ _ _ _ _ _ _ Hret Hmatch Hlast) as (k & Hk & Honly).
  exists k. split; [exact Hk|]. intros k' s Hs Hu. by apply (Honly k' s).
Qed.

Lemma update_shifts_matched_row_witness :
  exists k,
    shifts (snd (update_shifts roster_world)) !! k
    = Some (Shift.mk (Some k) 100 200 1 "e1" false) /\
    forall k' s, shifts (snd (update_shifts roster_world)) !! k' = Some s ->
                 Shift.uid s = "e1" -> k' = k.
Proof.
  apply (update_shifts_matched_row roster_world []
           [Event.mk "e2" "lunch" 100 130; Event.mk "e3" "BOB" 50 60]
           (Event.mk "e1" " alice " 100 200) (User.mk 1 "Alice" true)).
  - reflexivity.
  - reflexivity.
  - reflexivity.
  - intros H.
    repeat (apply Exists_cons in H as [[_ H]|H]; [discriminate H|]).
    by apply Exists_nil in H.
Defined.

Lemma get_duty_officers_member (w : World) (t : Z) (k : Z) (s : Shift.t) :
  shifts w !! k = Some s ->
  Shift.deleted s = false -> Shift.start s < t -> t < Shift.end_ s ->
  exists officers,
    get_duty_officers (Some t) w = (Return officers, w) /\
    ShiftUser (Shift.user s) ∈ officers.
Proof.
  intros Hk Hd Hs He.
  assert (Hin : s ∈ rows (on_duty t) (shifts w)).
  { apply elem_of_rows. split; [|by exists k]. unfold on_duty.
    rewrite Hd. cbn. apply andb_true_iff. split; by apply Z.ltb_lt. }
  unfold get_duty_officers, bind, get, ret. cbn [fst snd].
  destruct (rows (on_duty t) (shifts w)) as [|s1 current] eqn:Hrows;
    [by apply not_elem_of_nil in Hin|].
  eexists. split; [reflexivity|]. rewrite map_fmap.
  apply list_elem_of_fmap. by exists s.
Qed.

(** X25.  The synchronizer and the roster together: after a run that
    returned, at any time strictly between the start and the end of an
    event that is the last matched one of its uid, the user the event was
    matched with is among the duty officers, and the lookup leaves the
    store as it is. *)
Theorem update_shifts_then_duty (w : World) (events1 events2 : list Event.t)
    (event : Event.t) (user : User.t) (t : Z)
    (Hret : fst (update_shifts w) = Return tt)
    (Hfeed : get_events w = (events1 ++ event :: events2)%list)
    (Hmatch : matched_user (user_lookup w) event = Some user)
    (Hlast : ~ touches (user_lookup w) (Event.uid event) events2)
    (Hduring : Event.start event < t /\ t < Event.end_ event) :
  exists officers,
    get_duty_officers (Some t) (snd (update_shifts w))
    = (Return officers, snd (update_shifts w)) /\
    ShiftUser (User.id user) ∈ officers.
Proof.
  apply update_shifts_return in Hret. rewrite Hfeed in Hret.
  destruct (sync_table_row _ _ _ _ _ _ _ _ Hret Hmatch Hlast) as (k & Hk & _).
  destruct Hduring as [Hs He].
  apply (get_duty_officers_member _ t k (row_of k event user) Hk);
    [reflexivity | exact Hs | exact He].
Qed.

Lemma update_shifts_then_duty_witness :
  exists officers,
    get_duty_officers (Some 150) (snd (update_shifts roster_world))
    = (Return officers, snd (update_shifts roster_world)) /\
    ShiftUser 1 ∈ officers.
Proof.
  apply (update_shifts_then_duty roster_world []
           [Event.mk "e2" "lunch" 100 130; Event.mk "e3" "BOB" 50 60]
           (Event.mk "e1" " alice " 100 200) (User.mk 1 "Alice" true) 150).
  - reflexivity.
  - reflexivity.
  - reflexivity.
  - intros H.
    repeat (apply Exists_cons in H as [[_ H]|H]; [discriminate H|]).
    by apply Exists_nil in H.
  - cbn. lia.
Defined.

(** ** A threshold that is not a number *)





(** ** A cycle that alerts *)


